(** * insanely-fast-whisper CLI: precision negotiation and SRT timeline

    A shallow embedding of [insanely-fast-whisper.py]: the function
    [check_fp16] and the precision expression of [asr_cli] (the
    capability negotiator), and [seconds_to_srt_time_format] with the
    loop of [asr_cli] that writes the [.srt] file (the timeline
    repairer).

    Python values are modelled as the program meets them: [int] as [Z],
    [float] as an IEEE-754 binary64 number ([spec_float] with precision
    53 and maximal exponent 1024), [bool] as a subtype of [int], [str]
    as [string] (a sequence of characters with code points below 256),
    exceptions as an error result, and the two output streams (the error
    stream, the subtitle file) as a buffer threaded through the run. *)

From Stdlib Require Import ZArith List String Ascii Bool Lia.
From Stdlib Require Import Floats.SpecFloat.
From Stdlib Require Import DecimalString.
From Stdlib Require DecimalPos.
Import ListNotations.

Local Open Scope string_scope.
Local Open Scope Z_scope.

(** ** Exceptions and the two monads of the model *)

Inductive exn : Type :=
| TypeError
| ValueError
| OverflowError
| ZeroDivisionError
| IndexError
| AssertionError (msg : string)
| RuntimeError (msg : string).

Inductive result (A : Type) : Type :=
| Ok (a : A)
| Raise (e : exn).
Arguments Ok {A} a.
Arguments Raise {A} e.

(** A computation that writes to one output stream and may raise: the
    buffer holds everything written so far, and is kept when an exception
    escapes (what was written before stays written). *)
Definition io (A : Type) : Type := string -> result A * string.

Class Monad (m : Type -> Type) : Type := {
  ret : forall {A}, A -> m A;
  bind : forall {A B}, m A -> (A -> m B) -> m B
}.

#[export] Instance result_monad : Monad result := {
  ret := fun A a => Ok a;
  bind := fun A B c k => match c with Ok a => k a | Raise e => Raise e end
}.

#[export] Instance io_monad : Monad io := {
  ret := fun A a buf => (Ok a, buf);
  bind := fun A B c k buf =>
    match c buf with
    | (Ok a, buf') => k a buf'
    | (Raise e, buf') => (Raise e, buf')
    end
}.

Notation "x <- c ;; k" := (bind c (fun x => k))
  (at level 61, c at next level, right associativity).
Notation "' pat <- c ;; k" := (bind c (fun x => match x with pat => k end))
  (at level 61, pat pattern, c at next level, right associativity).
Notation "c ;;; k" := (bind c (fun _ => k))
  (at level 61, right associativity).

Definition lift {A} (r : result A) : io A := fun buf => (r, buf).
Definition write (s : string) : io unit := fun buf => (Ok tt, buf ++ s).

Definition nl : string := String (ascii_of_nat 10) "".

(** [print(s, file=...)] and [click.echo]: the text and a newline. *)
Definition print (s : string) : io unit := write (s ++ nl).

(** ** Strings *)

(** Characters for which [str.isspace] holds, among code points below
    256: U+0009..U+000D, U+001C..U+0020, U+0085 and U+00A0. *)
Definition is_space (c : ascii) : bool :=
  let n := N_of_ascii c in
  (((9 <=? n) && (n <=? 13)) || ((28 <=? n) && (n <=? 32))
   || (n =? 133) || (n =? 160))%N.

Fixpoint lstrip_with (sp : ascii -> bool) (s : string) : string :=
  match s with
  | String c r => if sp c then lstrip_with sp r else s
  | EmptyString => EmptyString
  end.

Fixpoint rstrip_with (sp : ascii -> bool) (s : string) : string :=
  match s with
  | EmptyString => EmptyString
  | String c r =>
      match rstrip_with sp r with
      | EmptyString => if sp c then EmptyString else String c EmptyString
      | r' => String c r'
      end
  end.

(** [s.strip()] *)
Definition strip (s : string) : string :=
  rstrip_with is_space (lstrip_with is_space s).

(** [s.startswith(p)] *)
Definition startswith (s p : string) : bool := String.prefix p s.

(** [s.split(sep)] for a separator of one character. *)
Fixpoint split (sep : ascii) (s : string) : list string :=
  match s with
  | EmptyString => [EmptyString]
  | String c r =>
      if Ascii.eqb c sep then EmptyString :: split sep r
      else match split sep r with
           | h :: t => String c h :: t
           | [] => [String c EmptyString]
           end
  end.

(** [l[i]] on a list, for a non-negative literal index. *)
Definition getitem {A} (l : list A) (i : nat) : result A :=
  match nth_error l i with
  | Some a => Ok a
  | None => Raise IndexError
  end.

Definition is_digit (c : ascii) : bool :=
  let n := N_of_ascii c in ((48 <=? n) && (n <=? 57))%N.

Definition digit_value (c : ascii) : Z := Z.of_N (N_of_ascii c) - 48.

(** The digits of a decimal literal: at least one digit, and single
    underscores allowed between digits only. [after_digit] tells whether
    the previous character was a digit. *)
Fixpoint digits_value (acc : Z) (after_digit : bool) (s : string) : option Z :=
  match s with
  | EmptyString => if after_digit then Some acc else None
  | String c r =>
      if is_digit c then digits_value (10 * acc + digit_value c) true r
      else if Ascii.eqb c "_" then
        if after_digit then digits_value acc false r else None
      else None
  end.

(** The whitespace that [int] drops around a literal: the ASCII blanks
    U+0009..U+000D and U+0020, and U+0085 and U+00A0, but not the
    separators U+001C..U+001F that [strip] removes. *)
Definition is_int_space (c : ascii) : bool :=
  let n := N_of_ascii c in
  (((9 <=? n) && (n <=? 13)) || (n =? 32) || (n =? 133) || (n =? 160))%N.

(** [int(s)] for a string, base 10: surrounding whitespace is dropped,
    an optional sign, then the digits; anything else is a ValueError.
    (The length limit that recent interpreters put on such conversions
    is not modelled.) *)
Definition int_of_str (s : string) : result Z :=
  let body :=
    match rstrip_with is_int_space (lstrip_with is_int_space s) with
    | String "-" r => option_map Z.opp (digits_value 0 false r)
    | String "+" r => digits_value 0 false r
    | r => digits_value 0 false r
    end in
  match body with
  | Some z => Ok z
  | None => Raise ValueError
  end.

(** [str(n)] for an integer. *)
Definition str_of_int (z : Z) : string := NilZero.string_of_int (Z.to_int z).

Fixpoint zeros (n : nat) : string :=
  match n with
  | O => EmptyString
  | S k => String "0" (zeros k)
  end.

(** [format(z, "0Nd")]: the decimal digits, padded with zeros on the
    left up to [width] characters, the sign (if any) before the zeros. *)
Definition format_d (width : nat) (z : Z) : string :=
  if (z <? 0)%Z then
    let d := str_of_int (- z) in
    "-" ++ zeros (width - 1 - String.length d)%nat ++ d
  else
    let d := str_of_int z in
    zeros (width - String.length d)%nat ++ d.

(** ** Floats: IEEE-754 binary64 *)

Definition prec : Z := 53.
Definition emax : Z := 1024.

Definition double : Type := spec_float.

Definition fadd : double -> double -> double := SFadd prec emax.
Definition fsub : double -> double -> double := SFsub prec emax.
Definition fmul : double -> double -> double := SFmul prec emax.
Definition fdiv : double -> double -> double := SFdiv prec emax.

(** The double nearest to the dyadic number [m * 2^e] (ties to even). *)
Definition double_of_dyadic (m e : Z) (szero : bool) : double :=
  binary_normalize prec emax m e szero.

Definition fzero : double := S754_zero false.
Definition fhalf : double := Eval vm_compute in double_of_dyadic 1 (-1) false.
Definition fone : double := Eval vm_compute in double_of_dyadic 1 0 false.

(** [x != 0.0], the truth value of a C double: NaN is true. *)
Definition fnonzero (x : double) : bool := negb (SFeqb x fzero).

(** [x < 0.0] *)
Definition fneg (x : double) : bool := SFltb x fzero.

Definition sign_bit (x : double) : bool :=
  match x with
  | S754_zero s | S754_infinity s | S754_finite s _ _ => s
  | S754_nan => false
  end.

(** C's [copysign(x, y)]: [x] with the sign of [y]. *)
Definition copysign (x y : double) : double :=
  match x with
  | S754_zero _ => S754_zero (sign_bit y)
  | S754_infinity _ => S754_infinity (sign_bit y)
  | S754_finite _ m e => S754_finite (sign_bit y) m e
  | S754_nan => S754_nan
  end.

(** C's [fmod(x, y)]: the exact remainder of [x] by [y], with the sign
    of [x] and a magnitude below that of [y]. It is always representable,
    so nothing is rounded. *)
Definition fmod (x y : double) : double :=
  match x, y with
  | S754_nan, _ | _, S754_nan => S754_nan
  | S754_infinity _, _ => S754_nan
  | _, S754_zero _ => S754_nan
  | S754_zero _, _ => x
  | S754_finite _ _ _, S754_infinity _ => x
  | S754_finite sx mx ex, S754_finite _ my ey =>
      let e := Z.min ex ey in
      let r := (Zpos mx * 2 ^ (ex - e)) mod (Zpos my * 2 ^ (ey - e)) in
      double_of_dyadic (cond_Zopp sx r) e sx
  end.

(** C's [floor(x)] *)
Definition ffloor (x : double) : double :=
  match x with
  | S754_finite s m e =>
      if 0 <=? e then x
      else double_of_dyadic (cond_Zopp s (Zpos m) / 2 ^ (- e)) 0 s
  | _ => x
  end.

(** [int(x)] for a float: truncation towards zero. *)
Definition int_of_float (x : double) : result Z :=
  match x with
  | S754_nan => Raise ValueError
  | S754_infinity _ => Raise OverflowError
  | S754_zero _ => Ok 0
  | S754_finite s m e =>
      Ok (cond_Zopp s (if 0 <=? e then Zpos m * 2 ^ e else Zpos m / 2 ^ (- e)))
  end.

(** The conversion of an [int] operand in mixed arithmetic: the nearest
    double, OverflowError when there is none. *)
Definition float_of_int (z : Z) : result double :=
  match double_of_dyadic z 0 false with
  | S754_infinity _ => Raise OverflowError
  | f => Ok f
  end.

(** The interpreter's float [divmod], which [//] and [%] on floats go
    through: the remainder comes from [fmod] and takes the sign of the
    divisor; the quotient is recomputed from it and snapped to an
    integral value. *)
Definition float_divmod (vx wx : double) : result (double * double) :=
  if SFeqb wx fzero then Raise ZeroDivisionError
  else
    let md := fmod vx wx in
    let div := fdiv (fsub vx md) wx in
    let '(md, div) :=
      if fnonzero md then
        if xorb (fneg wx) (fneg md) then (fadd md wx, fsub div fone)
        else (md, div)
      else (copysign fzero wx, div) in
    let floordiv :=
      if fnonzero div then
        let fl := ffloor div in
        if SFltb fhalf (fsub div fl) then fadd fl fone else fl
      else copysign fzero (fdiv vx wx) in
    Ok (floordiv, md).

Definition float_floor_div (vx wx : double) : result double :=
  '(q, _) <- float_divmod vx wx ;; ret q.

Definition float_rem (vx wx : double) : result double :=
  if SFeqb wx fzero then Raise ZeroDivisionError
  else
    let md := fmod vx wx in
    Ok (if fnonzero md then
          if xorb (fneg wx) (fneg md) then fadd md wx else md
        else copysign fzero wx).

(** ** Values and the operators the program applies to them *)

Inductive value : Type :=
| VNone
| VBool (b : bool)
| VInt (z : Z)
| VFloat (f : double)
| VStr (s : string).

(** A number as arithmetic sees it: [bool] counts as the [int] 0 or 1. *)
Inductive num : Type :=
| NInt (z : Z)
| NFloat (f : double).

Definition as_num (v : value) : option num :=
  match v with
  | VBool b => Some (NInt (Z.b2z b))
  | VInt z => Some (NInt z)
  | VFloat f => Some (NFloat f)
  | VNone | VStr _ => None
  end.

(** [isinstance(v, int) or isinstance(v, float)] *)
Definition is_number (v : value) : bool :=
  match v with
  | VBool _ | VInt _ | VFloat _ => true
  | VNone | VStr _ => false
  end.

(** [a // b] *)
Definition floordiv (a b : num) : result num :=
  match a, b with
  | NInt x, NInt y =>
      if y =? 0 then Raise ZeroDivisionError else Ok (NInt (x / y))
  | NFloat x, NInt y =>
      fy <- float_of_int y ;; q <- float_floor_div x fy ;; ret (NFloat q)
  | NInt x, NFloat y =>
      fx <- float_of_int x ;; q <- float_floor_div fx y ;; ret (NFloat q)
  | NFloat x, NFloat y =>
      q <- float_floor_div x y ;; ret (NFloat q)
  end.

(** [a % b] *)
Definition modulo (a b : num) : result num :=
  match a, b with
  | NInt x, NInt y =>
      if y =? 0 then Raise ZeroDivisionError else Ok (NInt (x mod y))
  | NFloat x, NInt y =>
      fy <- float_of_int y ;; r <- float_rem x fy ;; ret (NFloat r)
  | NInt x, NFloat y =>
      fx <- float_of_int x ;; r <- float_rem fx y ;; ret (NFloat r)
  | NFloat x, NFloat y =>
      r <- float_rem x y ;; ret (NFloat r)
  end.

(** [a - b] *)
Definition minus (a b : num) : result num :=
  match a, b with
  | NInt x, NInt y => Ok (NInt (x - y))
  | NFloat x, NInt y => fy <- float_of_int y ;; ret (NFloat (fsub x fy))
  | NInt x, NFloat y => fx <- float_of_int x ;; ret (NFloat (fsub fx y))
  | NFloat x, NFloat y => Ok (NFloat (fsub x y))
  end.

(** [a * b] *)
Definition times (a b : num) : result num :=
  match a, b with
  | NInt x, NInt y => Ok (NInt (x * y))
  | NFloat x, NInt y => fy <- float_of_int y ;; ret (NFloat (fmul x fy))
  | NInt x, NFloat y => fx <- float_of_int x ;; ret (NFloat (fmul fx y))
  | NFloat x, NFloat y => Ok (NFloat (fmul x y))
  end.

(** [int(a)] *)
Definition to_int (a : num) : result Z :=
  match a with
  | NInt z => Ok z
  | NFloat f => int_of_float f
  end.

(** ** The timeline repairer *)

(** Lines 85 to 93 of [seconds_to_srt_time_format]: the conversion of
    the repaired value. A value that is not a number fails at the first
    [//]. *)
Definition srt_time_format (seconds : value) : result string :=
  match as_num seconds with
  | None => Raise TypeError
  | Some seconds =>
      hours <- floordiv seconds (NInt 3600) ;;
      seconds <- modulo seconds (NInt 3600) ;;
      minutes <- floordiv seconds (NInt 60) ;;
      seconds <- modulo seconds (NInt 60) ;;
      whole <- to_int seconds ;;
      frac <- minus seconds (NInt whole) ;;
      scaled <- times frac (NInt 1000) ;;
      milliseconds <- to_int scaled ;;
      hours <- to_int hours ;;
      minutes <- to_int minutes ;;
      seconds <- to_int seconds ;;
      ret (format_d 2 hours ++ ":" ++ format_d 2 minutes ++ ":"
           ++ format_d 2 seconds ++ "," ++ format_d 3 milliseconds)
  end.

(** Lines 81 to 84: the [if]/[else] on the field, giving the accumulator
    that is handed back and the value that is converted. *)
Definition carry (prev seconds : value) : value * value :=
  if negb (is_number seconds) then (prev, prev) else (seconds, seconds).

Definition seconds_to_srt_time_format (prev seconds : value)
  : result (value * string) :=
  let '(prev, seconds) := carry prev seconds in
  formatted <- srt_time_format seconds ;;
  ret (prev, formatted).

Record chunk : Type := {
  text : string;
  timestamp : value * value
}.

(** The loop of [asr_cli] over [enumerate(outputs['chunks'])], writing
    to the subtitle file; [index] is the position of the first chunk of
    [chunks]. *)
Fixpoint write_chunks (prev : value) (index : Z) (chunks : list chunk)
  : io unit :=
  match chunks with
  | [] => ret tt
  | c :: rest =>
      '(prev, start_time) <-
         lift (seconds_to_srt_time_format prev (fst (timestamp c))) ;;
      '(prev, end_time) <-
         lift (seconds_to_srt_time_format prev (snd (timestamp c))) ;;
      write (str_of_int (index + 1) ++ nl) ;;;
      write (start_time ++ " --> " ++ end_time ++ nl) ;;;
      write (strip (text c) ++ nl ++ nl) ;;;
      write_chunks prev (index + 1) rest
  end.

(** The file is opened for writing, so it starts empty, and the
    accumulator starts at the [int] 0. *)
Definition write_srt (chunks : list chunk) : result unit * string :=
  write_chunks (VInt 0) 0 chunks EmptyString.


(** ** The capability negotiator *)

(** What the program asks of the accelerator runtime:
    [torch.cuda.is_available()] and the [major] field of
    [torch.cuda.get_device_properties(i)], which raises for an index it
    does not accept (an AssertionError for an index out of range). *)
Record cuda : Type := {
  is_available : bool;
  get_device_properties : Z -> result Z
}.

Definition invalid_device : io bool :=
  print "Invalid device format. Use an integer or a string like 'cuda:0'." ;;;
  ret false.

(** Lines 25 to 33 of [check_fp16]: only an AssertionError is caught. *)
Definition query_device (rt : cuda) (gpu_index : Z) : io bool :=
  match get_device_properties rt gpu_index with
  | Ok major => ret (7 <=? major)
  | Raise (AssertionError msg) => print ("Error: " ++ msg) ;;; ret false
  | Raise e => lift (Raise e)
  end.

(** Lines 16 to 23: the index the device designates, when the device has
    one of the two accepted forms ([None] when it has neither). The text
    after the first colon goes through [int], which may raise. *)
Definition gpu_index (device : value) : option (result Z) :=
  match device with
  | VStr s =>
      if startswith s "cuda:"
      then Some (part <- getitem (split ":" s) 1 ;; int_of_str part)
      else None
  | VInt z => Some (Ok z)
  | VBool b => Some (Ok (Z.b2z b))
  | VNone | VFloat _ => None
  end.

Definition check_fp16 (rt : cuda) (device : value) : io bool :=
  if negb (is_available rt) then
    print "CUDA is not available on this system." ;;; ret false
  else
    match gpu_index device with
    | Some parsed => i <- lift parsed ;; query_device rt i
    | None => invalid_device
    end.

Inductive dtype : Type := float16 | float32.

(** [torch.float16 if dtype == "float16" and check_fp16(device) else
    torch.float32]: [and] evaluates [check_fp16] only when the
    comparison holds. *)
Definition torch_dtype (rt : cuda) (dt : string) (device : value) : io dtype :=
  if String.eqb dt "float16" then
    fp16 <- check_fp16 rt device ;;
    ret (if fp16 then float16 else float32)
  else ret float32.

(** [asr_cli] evaluates the expression twice, for the line it prints
    and for the [torch_dtype] argument of the pipeline; the value handed
    to the pipeline is the effective precision. The buffer is the error
    stream. *)
Definition effective_precision (rt : cuda) (dt : string) (device : value)
  : io dtype :=
  torch_dtype rt dt device ;;;
  torch_dtype rt dt device.

(** Two runtimes to evaluate the negotiator on: one with the given
    architecture generations, device [i] being the [i]-th of the list,
    and one without accelerator support. *)
Definition gpus (majors : list Z) : cuda := {|
  is_available := true;
  get_device_properties := fun i =>
    if (i <? 0) || (Z.of_nat (List.length majors) <=? i)
    then Raise (AssertionError "Invalid device id")
    else Ok (nth (Z.to_nat i) majors 0)
|}.

Definition no_cuda : cuda := {|
  is_available := false;
  get_device_properties := fun _ => Raise (RuntimeError "no driver")
|}.

(** ** The repaired timeline, as the specification describes it *)

Definition fields (chunks : list chunk) : list value :=
  flat_map (fun c => [fst (timestamp c); snd (timestamp c)]) chunks.

(** The values handed to the conversion, field after field: a number is
    taken as it is and becomes the last known value, anything else is
    replaced by the last known value. *)
Fixpoint fed_values (last_known : value) (fs : list value) : list value :=
  match fs with
  | [] => []
  | f :: rest =>
      let v := if is_number f then f else last_known in
      v :: fed_values v rest
  end.

(** The numbers among the fields, in order. *)
Definition present (fs : list value) : list value := filter is_number fs.

(** [a <= b] between numbers, as the interpreter compares them: exactly,
    also between an [int] and a [float]; false when either is NaN or not
    a number. *)
Definition compare_int_float (z : Z) (f : double) : option comparison :=
  match f with
  | S754_nan => None
  | S754_infinity s => Some (if s then Gt else Lt)
  | S754_zero _ => Some (z ?= 0)
  | S754_finite s m e =>
      Some (if 0 <=? e then z ?= cond_Zopp s (Zpos m) * 2 ^ e
            else z * 2 ^ (- e) ?= cond_Zopp s (Zpos m))
  end.

Definition num_compare (a b : num) : option comparison :=
  match a, b with
  | NInt x, NInt y => Some (x ?= y)
  | NInt x, NFloat y => compare_int_float x y
  | NFloat x, NInt y => option_map CompOpp (compare_int_float y x)
  | NFloat x, NFloat y => SFcompare x y
  end.

Definition le (a b : value) : bool :=
  match as_num a, as_num b with
  | Some x, Some y =>
      match num_compare x y with
      | Some (Lt | Eq) => true
      | _ => false
      end
  | _, _ => false
  end.

Fixpoint nondecreasing_from (a : value) (l : list value) : Prop :=
  match l with
  | [] => True
  | b :: rest => le a b = true /\ nondecreasing_from b rest
  end.

Definition nondecreasing (l : list value) : Prop :=
  match l with
  | [] => True
  | a :: rest => nondecreasing_from a rest
  end.

(** A subtitle cue before rendering: its number, the values converted
    for its two ends, and its text. *)
Record cue : Type := {
  cue_index : Z;
  cue_start : value;
  cue_end : value;
  cue_text : string
}.

(** The cues in the order the loop produces them: lines 73 to 75 without
    the conversions, and the operands of lines 76 to 78. *)
Fixpoint repair (prev : value) (index : Z) (chunks : list chunk) : list cue :=
  match chunks with
  | [] => []
  | c :: rest =>
      let '(prev, s) := carry prev (fst (timestamp c)) in
      let '(prev, e) := carry prev (snd (timestamp c)) in
      {| cue_index := index + 1; cue_start := s; cue_end := e;
         cue_text := strip (text c) |} :: repair prev (index + 1) rest
  end.

Definition ends (q : cue) : list value := [cue_start q; cue_end q].

(** The four lines of a cue in the file. *)
Definition render_cue (q : cue) : result string :=
  st <- srt_time_format (cue_start q) ;;
  en <- srt_time_format (cue_end q) ;;
  ret (str_of_int (cue_index q) ++ nl
       ++ st ++ " --> " ++ en ++ nl
       ++ cue_text q ++ nl ++ nl).

Fixpoint emit (cues : list cue) : io unit :=
  match cues with
  | [] => ret tt
  | q :: rest => block <- lift (render_cue q) ;; write block ;;; emit rest
  end.

Definition renders (v : value) : bool :=
  match srt_time_format v with
  | Ok _ => true
  | Raise _ => false
  end.

(** The double closest to the decimal [n / d]: what a decimal literal
    such as [3661.001] denotes. *)
Definition float_of_decimal (n d : Z) : double :=
  fdiv (double_of_dyadic n 0 false) (double_of_dyadic d 0 false).

(** ** What stripping means *)

Fixpoint all_chars (p : ascii -> bool) (s : string) : bool :=
  match s with
  | EmptyString => true
  | String c r => p c && all_chars p r
  end.

Definition first_is (p : ascii -> bool) (s : string) : bool :=
  match s with
  | EmptyString => false
  | String c _ => p c
  end.

Fixpoint last_is (p : ascii -> bool) (s : string) : bool :=
  match s with
  | EmptyString => false
  | String c EmptyString => p c
  | String _ r => last_is p r
  end.

(** A field that the loop can process: anything that is not a number
    (it is replaced), or a number that the conversion accepts. *)
Definition convertible (v : value) : bool := negb (is_number v) || renders v.

(** The layout of the file: the blocks of the cues, one after the
    other. *)
Definition srt_file (blocks : list string) : string :=
  String.concat "" blocks.

(** Chunks for the examples: times given as decimals, [None] for a
    missing end. *)
Definition seconds (n d : Z) : value := VFloat (float_of_decimal n d).

Definition inverted_chunk : chunk :=
  {| text := "a"; timestamp := (seconds 5 1, seconds 3 1) |}.

Definition hello_world : list chunk :=
  [ {| text := " hello "; timestamp := (seconds 0 1, seconds 15 10) |};
    {| text := "world"; timestamp := (seconds 15 10, VNone) |} ].

(** ** The time code, as the specification describes it *)

(** [HH:MM:SS,mmm]: hours, minutes and seconds padded with zeros to two
    digits, milliseconds to three. *)
Definition timecode (hours minutes secs millis : Z) : string :=
  format_d 2 hours ++ ":" ++ format_d 2 minutes ++ ":"
  ++ format_d 2 secs ++ "," ++ format_d 3 millis.

(** The literal [3661.001]. *)
Definition f3661_001 : double := float_of_decimal 3661001 1000.

(** ** Doubles as whole numbers of units

    Every finite double is a whole multiple of 2^-1074, the smallest
    positive double. [units x] is the value of [x] counted in that unit,
    and [one_second] is the count of 1.0. *)

Definition one_second : Z := 2 ^ 1074.

Definition units (x : double) : Z :=
  match x with
  | S754_finite s m e => cond_Zopp s (Zpos m * 2 ^ (e + 1074))
  | _ => 0
  end.

(** The exponent (over 2^-1074) of the doubles of the size of [u]: they
    carry 53 bits, so they are the multiples of [2 ^ grid u]. *)
Definition grid (u : Z) : Z := Z.max (Z.log2 u - 52) 0.

Definition representable (u : Z) : Prop := u mod 2 ^ grid u = 0.

(** The double of value [u] units, for a representable [u]; [+0.0] for
    zero. *)
Definition canon (u : Z) : double :=
  match u with
  | Zpos _ => S754_finite false (Z.to_pos (u / 2 ^ grid u)) (grid u - 1074)
  | _ => S754_zero false
  end.

(** The whole part of a finite double, towards zero. *)
Definition truncate (x : double) : Z :=
  match x with
  | S754_finite s m e =>
      cond_Zopp s (if 0 <=? e then Zpos m * 2 ^ e else Zpos m / 2 ^ (- e))
  | _ => 0
  end.

Definition is_finite (x : double) : bool :=
  match x with
  | S754_zero _ | S754_finite _ _ _ => true
  | S754_infinity _ | S754_nan => false
  end.

(** Finite and not below zero (either zero counts). *)
Definition nonnegative (x : double) : bool :=
  match x with
  | S754_zero _ | S754_finite false _ _ => true
  | _ => false
  end.

(** The double [1000.0]. *)
Definition f1000 : double := Eval vm_compute in double_of_dyadic 1000 0 false.

(** The numbers below [n], for checks by enumeration. *)
Definition below (n : nat) : list Z := map Z.of_nat (List.seq 0 n).

(** ** Device strings and file names: where a character occurs *)

(** [c in s] *)
Fixpoint has (c : ascii) (s : string) : bool :=
  match s with
  | EmptyString => false
  | String d r => Ascii.eqb d c || has c r
  end.

(** ** The name of the subtitle file

    Lines 69 and 70 of [asr_cli], with [os.path] as it is on a POSIX
    system: the separator is [/] and the extension separator [.]. *)

(** [s.rfind(c)] for one character, the positions counted from [i]:
    the highest index of [c], -1 when there is none. *)
Fixpoint rfind_from (c : ascii) (s : string) (i : Z) : Z :=
  match s with
  | EmptyString => -1
  | String d r =>
      let j := rfind_from c r (i + 1) in
      if 0 <=? j then j else if Ascii.eqb d c then i else -1
  end.

Definition rfind (c : ascii) (s : string) : Z := rfind_from c s 0.

(** [s[:n]] and [s[n:]] *)
Fixpoint take (n : nat) (s : string) : string :=
  match n, s with
  | S k, String c r => String c (take k r)
  | _, _ => EmptyString
  end.

Fixpoint drop (n : nat) (s : string) : string :=
  match n, s with
  | S k, String _ r => drop k r
  | _, _ => s
  end.

(** [os.path.basename(p)]: what follows the last separator. *)
Definition basename (p : string) : string :=
  let i := rfind "/" p + 1 in
  drop (Z.to_nat i) p.

(** The loop of [os.path.splitext] that skips the leading dots of the
    name: from [filenameIndex], over [count] positions, whether a
    character other than a dot is met (the extension is then split
    off). *)
Fixpoint name_before_dot (p : string) (filenameIndex : nat) (count : nat) : bool :=
  match count with
  | O => false
  | S k =>
      match String.get filenameIndex p with
      | Some c =>
          if Ascii.eqb c "." then name_before_dot p (S filenameIndex) k
          else true
      | None => true
      end
  end.

(** [os.path.splitext(p)] *)
Definition splitext (p : string) : string * string :=
  let sepIndex := rfind "/" p in
  let dotIndex := rfind "." p in
  if (sepIndex <? dotIndex)
     && name_before_dot p (Z.to_nat (sepIndex + 1))
          (Z.to_nat (dotIndex - (sepIndex + 1)))
  then (take (Z.to_nat dotIndex) p, drop (Z.to_nat dotIndex) p)
  else (p, EmptyString).

Definition srt_filename (audio_file : string) : string :=
  let audio_file_name := fst (splitext (basename audio_file)) in
  audio_file_name ++ ".srt".

(** ** The loop, chunk after chunk *)

(** The accumulator of the loop after the fields [fs]: what the
    assignments to [prev] of lines 74 and 75 leave in it. *)
Definition last_known (prev : value) (fs : list value) : value :=
  fold_left (fun prev seconds => fst (carry prev seconds)) fs prev.

(** The four lines of the block of a chunk. *)
Definition block (index : Z) (start_time end_time : string) (c : chunk)
  : string :=
  str_of_int (index + 1) ++ nl ++ start_time ++ " --> " ++ end_time ++ nl
  ++ strip (text c) ++ nl ++ nl.

(** ** The time code of a double, read on its exact value

    The decomposition in the words of the specification, carried out
    on the exact value of the double (a whole number of units): hours
    are the value div 3600, minutes the remainder div 60, seconds the
    whole part of what is left, and milliseconds its fractional part
    times 1000, truncated. *)
Definition timecode_as_specified (x : double) : string :=
  let value := units x in
  let remainder := value mod (3600 * one_second) in
  let remainder' := remainder mod (60 * one_second) in
  let fraction := remainder' mod one_second in
  timecode (value / (3600 * one_second)) (remainder / (60 * one_second))
    (remainder' / one_second) (fraction * 1000 / one_second).

(** ** The canonical form [HH:MM:SS,mmm] *)

(** The digits at the beginning of [s], and what follows them. *)
Fixpoint span_digits (s : string) : string * string :=
  match s with
  | String c r =>
      if is_digit c then
        let '(d, t) := span_digits r in (String c d, t)
      else (EmptyString, s)
  | EmptyString => (EmptyString, EmptyString)
  end.

(** A digit from 0 to 5: the first digit of a minute or second field. *)
Definition is_digit_below_6 (c : ascii) : bool :=
  is_digit c && (N_of_ascii c <=? 53)%N.

(** Two or more digits of hours, then [:MM:SS,mmm] with minutes and
    seconds from 00 to 59 and three digits of milliseconds, and nothing
    else. *)
Definition is_timecode (s : string) : bool :=
  let '(hh, rest) := span_digits s in
  (2 <=? String.length hh)%nat
  && match rest with
     | String c1 (String m1 (String m2 (String c2 (String s1 (String s2
         (String c3 (String f1 (String f2 (String f3 EmptyString))))))))) =>
         Ascii.eqb c1 ":" && is_digit_below_6 m1 && is_digit m2
         && Ascii.eqb c2 ":" && is_digit_below_6 s1 && is_digit s2
         && Ascii.eqb c3 "," && is_digit f1 && is_digit f2 && is_digit f3
     | _ => false
     end.

(** A number in the range where the conversion gives a canonical time
    code: an [int] not below zero, a [bool], or a well-formed double not
    below zero and below 2^53 seconds. *)
Definition in_range (v : value) : bool :=
  match v with
  | VInt z => 0 <=? z
  | VBool _ => true
  | VFloat x =>
      valid_binary prec emax x && nonnegative x
      && (units x <? 2 ^ 53 * one_second)
  | VNone | VStr _ => false
  end.

(** A timestamp field of a well-timed chunk: a number in range, or
    anything that is not a number (it is replaced). *)
Definition well_timed (v : value) : bool := negb (is_number v) || in_range v.

(** The chunks of the end-to-end scenario of the specification. *)
Definition spec_scenario : list chunk :=
  [ {| text := " hello "; timestamp := (seconds 0 1, seconds 12 10) |};
    {| text := "world"; timestamp := (seconds 12 10, VNone) |} ].

(** Chunks on which the writer leaves the canonical form or the file
    short: a NaN start, and a start just below zero. *)
Definition nan_chunk : chunk :=
  {| text := "b"; timestamp := (VFloat S754_nan, VNone) |}.

Definition below_zero_chunk : chunk :=
  {| text := "a"; timestamp := (seconds (-1) (10 ^ 20), VInt 1) |}.

(* ================================================================= *)
(** * Properties *)


(** ** The capability negotiator *)

Section Negotiator.
Variable rt : cuda.

Lemma check_fp16_unavailable (device : value) (err : string) :
  is_available rt = false ->
  check_fp16 rt device err
  = (Ok false, err ++ "CUDA is not available on this system." ++ nl).
Proof.
  intros Hrt. unfold check_fp16. rewrite Hrt. reflexivity.
Qed.

Lemma check_fp16_unrecognized (device : value) (err : string) :
  is_available rt = true ->
  gpu_index device = None ->
  check_fp16 rt device err
  = (Ok false,
     err ++ "Invalid device format. Use an integer or a string like 'cuda:0'."
         ++ nl).
Proof.
  intros Hrt Hdev. unfold check_fp16. rewrite Hrt, Hdev. reflexivity.
Qed.

Lemma check_fp16_out_of_range (device : value) (i : Z) (msg err : string) :
  is_available rt = true ->
  gpu_index device = Some (Ok i) ->
  get_device_properties rt i = Raise (AssertionError msg) ->
  check_fp16 rt device err = (Ok false, err ++ ("Error: " ++ msg) ++ nl).
Proof.
  intros Hrt Hdev Hq. unfold check_fp16, query_device.
  rewrite Hrt, Hdev. cbn. rewrite Hq. reflexivity.
Qed.

Lemma check_fp16_generation (device : value) (i major : Z) (err : string) :
  is_available rt = true ->
  gpu_index device = Some (Ok i) ->
  get_device_properties rt i = Ok major ->
  check_fp16 rt device err = (Ok (7 <=? major), err).
Proof.
  intros Hrt Hdev Hq. unfold check_fp16, query_device.
  rewrite Hrt, Hdev. cbn. rewrite Hq. reflexivity.
Qed.

Lemma check_fp16_unparsed (device : value) (e : exn) (err : string) :
  is_available rt = true ->
  gpu_index device = Some (Raise e) ->
  check_fp16 rt device err = (Raise e, err).
Proof.
  intros Hrt Hdev. unfold check_fp16. rewrite Hrt, Hdev. reflexivity.
Qed.
End Negotiator.

(** C5, at the input where the code departs from it: with the runtime
    available, the device string [cuda:x] has the accepted prefix but no
    index that [int] can read; the ValueError of [int] is not caught, so
    the negotiation raises instead of answering full precision with a
    diagnostic, and nothing is written to the error stream. *)
Theorem negotiation_aborts_on_unreadable_index :
  forall (rt : cuda) (err : string),
    is_available rt = true ->
    check_fp16 rt (VStr "cuda:x") err = (Raise ValueError, err)
    /\ effective_precision rt "float16" (VStr "cuda:x") err
       = (Raise ValueError, err).
Proof.
  intros rt err Hrt. split.
  - now apply check_fp16_unparsed.
  - unfold effective_precision, torch_dtype. cbn.
    rewrite (check_fp16_unparsed rt (VStr "cuda:x") ValueError err Hrt eq_refl).
    reflexivity.
Qed.

Lemma negotiation_aborts_on_unreadable_index_witness :
  is_available (gpus [8]) = true
  /\ effective_precision (gpus [8]) "float16" (VStr "cuda:x") ""
     = (Raise ValueError, "").
Proof.
  split; [reflexivity|].
  apply (negotiation_aborts_on_unreadable_index (gpus [8]) ""). reflexivity.
Defined.

(** C6: when the accelerator runtime is unavailable, the effective
    precision is full, whatever the device and the requested precision. *)
Theorem unavailable_runtime_full_precision :
  forall (rt : cuda) (dt : string) (device : value) (err : string),
    is_available rt = false ->
    fst (effective_precision rt dt device err) = Ok float32.
Proof.
  intros rt dt device err Hrt. unfold effective_precision, torch_dtype.
  destruct (String.eqb dt "float16"); [|reflexivity].
  cbn. rewrite !check_fp16_unavailable by assumption. reflexivity.
Qed.

Lemma unavailable_runtime_full_precision_witness :
  is_available no_cuda = false
  /\ fst (effective_precision no_cuda "float16" (VStr "cuda:0") "")
     = Ok float32.
Proof.
  split; [reflexivity|].
  apply (unavailable_runtime_full_precision no_cuda "float16" (VStr "cuda:0") "").
  reflexivity.
Defined.

(** C7: for a device that designates an index the runtime accepts, of
    architecture generation 7 or more, a request for float16 is granted;
    nothing is written to the error stream. *)
Theorem capable_device_reduced_precision :
  forall (rt : cuda) (device : value) (i major : Z) (err : string),
    is_available rt = true ->
    gpu_index device = Some (Ok i) ->
    get_device_properties rt i = Ok major ->
    7 <= major ->
    effective_precision rt "float16" device err = (Ok float16, err).
Proof.
  intros rt device i major err Hrt Hdev Hq Hmajor.
  unfold effective_precision, torch_dtype. cbn.
  rewrite !(check_fp16_generation rt device i major) by assumption.
  apply Z.leb_le in Hmajor. rewrite Hmajor. reflexivity.
Qed.

Lemma capable_device_reduced_precision_witness :
  effective_precision (gpus [6; 8]) "float16" (VStr "cuda:1") ""
  = (Ok float16, "").
Proof.
  apply (capable_device_reduced_precision (gpus [6; 8]) (VStr "cuda:1") 1 8 "");
    [reflexivity | reflexivity | reflexivity | lia].
Defined.

(** C8: for a device that designates an index the runtime accepts, of
    architecture generation below 7, the effective precision is full
    although float16 was requested. *)
Theorem old_device_full_precision :
  forall (rt : cuda) (device : value) (i major : Z) (err : string),
    is_available rt = true ->
    gpu_index device = Some (Ok i) ->
    get_device_properties rt i = Ok major ->
    major < 7 ->
    effective_precision rt "float16" device err = (Ok float32, err).
Proof.
  intros rt device i major err Hrt Hdev Hq Hmajor.
  unfold effective_precision, torch_dtype. cbn.
  rewrite !(check_fp16_generation rt device i major) by assumption.
  apply Z.leb_gt in Hmajor. rewrite Hmajor. reflexivity.
Qed.

Lemma old_device_full_precision_witness :
  effective_precision (gpus [6; 8]) "float16" (VStr "cuda:0") ""
  = (Ok float32, "").
Proof.
  apply (old_device_full_precision (gpus [6; 8]) (VStr "cuda:0") 0 6 "");
    [reflexivity | reflexivity | reflexivity | lia].
Defined.

(** C10: for a requested precision other than the exact string
    [float16], the effective precision is full on every runtime and
    device; [check_fp16] is not evaluated, so nothing is written to the
    error stream and nothing can be raised. *)
Theorem other_dtype_full_precision :
  forall (rt : cuda) (dt : string) (device : value) (err : string),
    dt <> "float16" ->
    effective_precision rt dt device err = (Ok float32, err).
Proof.
  intros rt dt device err Hdt. unfold effective_precision, torch_dtype.
  apply String.eqb_neq in Hdt. rewrite Hdt. reflexivity.
Qed.

Lemma other_dtype_full_precision_witness :
  effective_precision (gpus [8]) "fp16" (VStr "cuda:x") "" = (Ok float32, "").
Proof.
  apply (other_dtype_full_precision (gpus [8]) "fp16" (VStr "cuda:x") "").
  discriminate.
Defined.

(** ** Strings *)

Lemma append_assoc (a b c : string) : (a ++ b) ++ c = a ++ (b ++ c).
Proof.
  induction a as [|x a IH]; cbn; [reflexivity | now rewrite IH].
Qed.

Lemma append_nil_r (a : string) : a ++ "" = a.
Proof.
  induction a as [|x a IH]; cbn; [reflexivity | now rewrite IH].
Qed.

Lemma lstrip_with_spec (p : ascii -> bool) (s : string) :
  exists l, s = l ++ lstrip_with p s
            /\ all_chars p l = true
            /\ first_is p (lstrip_with p s) = false.
Proof.
  induction s as [|c s IH]; cbn.
  - exists "". auto.
  - destruct (p c) eqn:Hc.
    + destruct IH as (l & Hs & Hl & Hf).
      exists (String c l). cbn. rewrite Hc, Hl. repeat split; auto.
      now rewrite <- Hs.
    + exists "". cbn. auto.
Qed.

Lemma rstrip_with_spec (p : ascii -> bool) (s : string) :
  exists r, s = rstrip_with p s ++ r
            /\ all_chars p r = true
            /\ last_is p (rstrip_with p s) = false.
Proof.
  induction s as [|c s IH]; cbn.
  - exists "". auto.
  - destruct IH as (r & Hs & Hr & Hl).
    destruct (rstrip_with p s) as [|d t] eqn:Ht.
    + destruct (p c) eqn:Hc.
      * exists (String c r). cbn in *. rewrite Hc, Hr. subst s. auto.
      * exists r. cbn in *. rewrite Hc. subst s. auto.
    + exists r. cbn in *. rewrite <- Hs. auto.
Qed.

Lemma rstrip_with_first (p : ascii -> bool) (s : string) :
  first_is p s = false -> first_is p (rstrip_with p s) = false.
Proof.
  destruct s as [|c s]; cbn; [auto|].
  intros Hc. destruct (rstrip_with p s); [rewrite Hc|]; cbn; auto.
Qed.

(** [strip] takes away a run of whitespace at each end, and what is left
    neither begins nor ends with whitespace. *)
Lemma strip_spec (s : string) :
  exists l r, s = l ++ strip s ++ r
              /\ all_chars is_space l = true
              /\ all_chars is_space r = true
              /\ first_is is_space (strip s) = false
              /\ last_is is_space (strip s) = false.
Proof.
  unfold strip.
  destruct (lstrip_with_spec is_space s) as (l & Hs & Hl & Hf).
  destruct (rstrip_with_spec is_space (lstrip_with is_space s))
    as (r & Hs' & Hr & Hla).
  exists l, r. repeat split; auto.
  - now rewrite <- Hs'.
  - now apply rstrip_with_first.
Qed.

(** ** The timeline repairer: the loop and its cues *)

Lemma write_chunks_emit (chunks : list chunk) :
  forall (prev : value) (index : Z) (file : string),
    write_chunks prev index chunks file = emit (repair prev index chunks) file.
Proof.
  induction chunks as [|c rest IH]; intros prev index file; [reflexivity|].
  cbn [write_chunks repair].
  unfold seconds_to_srt_time_format, carry.
  destruct (is_number (fst (timestamp c)));
    destruct (is_number (snd (timestamp c)));
    cbn [negb emit]; unfold render_cue, lift, write; cbn;
    repeat match goal with
      | H : srt_time_format ?v = _ |- context [srt_time_format ?v] =>
          rewrite H; cbn
      | |- context [srt_time_format ?v] =>
          destruct (srt_time_format v) eqn:?; cbn
      end;
    try reflexivity;
    rewrite IH; f_equal; unfold nl;
    repeat (progress (rewrite ?append_assoc; cbn)); reflexivity.
Qed.

Lemma repair_fed_values (chunks : list chunk) :
  forall (prev : value) (index : Z),
    flat_map ends (repair prev index chunks) = fed_values prev (fields chunks).
Proof.
  induction chunks as [|c rest IH]; intros prev index; [reflexivity|].
  cbn [repair fields flat_map fed_values app]. unfold carry.
  destruct (is_number (fst (timestamp c)));
    destruct (is_number (snd (timestamp c))); cbn;
    now rewrite IH.
Qed.

Lemma repair_length (chunks : list chunk) :
  forall (prev : value) (index : Z),
    List.length (repair prev index chunks) = List.length chunks.
Proof.
  induction chunks as [|c rest IH]; intros prev index; [reflexivity|].
  cbn [repair]. destruct (carry _ _) as [p1 s]. destruct (carry _ _) as [p2 e].
  cbn. now rewrite IH.
Qed.

Lemma repair_nth (chunks : list chunk) :
  forall (prev : value) (index : Z) (i : nat) (c : chunk),
    nth_error chunks i = Some c ->
    exists q, nth_error (repair prev index chunks) i = Some q
              /\ cue_index q = index + Z.of_nat i + 1
              /\ cue_text q = strip (text c).
Proof.
  induction chunks as [|d rest IH]; intros prev index i c Hi.
  - destruct i; discriminate.
  - cbn [repair]. destruct (carry _ _) as [p1 s]. destruct (carry _ _) as [p2 e].
    destruct i as [|i]; cbn in Hi |- *.
    + injection Hi as ->. eexists. split; [reflexivity|]. cbn. split; [lia|auto].
    + destruct (IH p2 (index + 1) i c Hi) as (q & Hq & Hidx & Htxt).
      exists q. repeat split; auto. lia.
Qed.

Lemma srt_time_format_zero : srt_time_format (VInt 0) = Ok "00:00:00,000".
Proof. reflexivity. Qed.

(** C1: the carry-forward of [seconds_to_srt_time_format]. A numeric
    field is the value converted and the accumulator handed back,
    whatever the accumulator was before; for any other field the
    accumulator is converted and handed back unchanged. The loop starts
    from the accumulator 0, so a first field that is not a number is
    rendered 00:00:00,000; and over a whole chunk sequence the values
    converted by the loop are those of the carry-forward recurrence. *)
Theorem carry_forward :
  forall (prev seconds : value),
    (is_number seconds = true ->
     seconds_to_srt_time_format prev seconds
     = (formatted <- srt_time_format seconds ;; ret (seconds, formatted)))
    /\ (is_number seconds = false ->
        seconds_to_srt_time_format prev seconds
        = (formatted <- srt_time_format prev ;; ret (prev, formatted)))
    /\ (is_number seconds = false ->
        seconds_to_srt_time_format (VInt 0) seconds
        = Ok (VInt 0, "00:00:00,000"))
    /\ (forall chunks : list chunk,
          write_srt chunks = emit (repair (VInt 0) 0 chunks) ""
          /\ flat_map ends (repair (VInt 0) 0 chunks)
             = fed_values (VInt 0) (fields chunks)).
Proof.
  intros prev seconds. repeat split.
  - intros H. unfold seconds_to_srt_time_format, carry. now rewrite H.
  - intros H. unfold seconds_to_srt_time_format, carry. now rewrite H.
  - intros H. unfold seconds_to_srt_time_format, carry. now rewrite H.
  - apply write_chunks_emit.
  - apply repair_fed_values.
Qed.

Lemma carry_forward_witness :
  seconds_to_srt_time_format (VInt 7) (VInt 5) = Ok (VInt 5, "00:00:05,000")
  /\ seconds_to_srt_time_format (VInt 7) VNone = Ok (VInt 7, "00:00:07,000")
  /\ seconds_to_srt_time_format (VInt 0) VNone = Ok (VInt 0, "00:00:00,000").
Proof.
  split; [|split].
  - exact (proj1 (carry_forward (VInt 7) (VInt 5)) eq_refl).
  - exact (proj1 (proj2 (carry_forward (VInt 7) VNone)) eq_refl).
  - exact (proj1 (proj2 (proj2 (carry_forward (VInt 7) VNone))) eq_refl).
Defined.

(** C9: a boolean field counts as a number. [True] becomes the
    accumulator (it is the integer 1) and is rendered 00:00:01,000;
    [False] becomes the accumulator (the integer 0) and is rendered
    00:00:00,000; the previous accumulator is not carried forward. *)
Theorem boolean_field_is_numeric :
  forall prev : value,
    seconds_to_srt_time_format prev (VBool true)
    = Ok (VBool true, "00:00:01,000")
    /\ seconds_to_srt_time_format prev (VBool false)
       = Ok (VBool false, "00:00:00,000")
    /\ as_num (VBool true) = Some (NInt 1)
    /\ as_num (VBool false) = Some (NInt 0).
Proof.
  intros prev. repeat split.
Qed.

(** ** Order of the converted values *)

Lemma SFcompare_refl (f : double) :
  f <> S754_nan -> SFcompare f f = Some Eq.
Proof.
  destruct f as [s|s| |s m e]; cbn; intros H; try congruence.
  - now destruct s.
  - rewrite Z.compare_refl, Pos.compare_cont_refl. now destruct s.
Qed.

Lemma compare_int_float_nan (z : Z) (f : double) (c : comparison) :
  compare_int_float z f = Some c -> f <> S754_nan.
Proof. destruct f; cbn; congruence. Qed.

Lemma SFcompare_nan_r (f g : double) (c : comparison) :
  SFcompare f g = Some c -> g <> S754_nan.
Proof. destruct f, g; cbn; congruence. Qed.

Lemma SFcompare_nan_l (f g : double) (c : comparison) :
  SFcompare f g = Some c -> f <> S754_nan.
Proof. destruct f, g; cbn; congruence. Qed.

Lemma num_compare_refl_r (x y : num) (c : comparison) :
  num_compare x y = Some c -> num_compare y y = Some Eq.
Proof.
  destruct x as [x|x], y as [y|y]; cbn; intros H.
  - now rewrite Z.compare_refl.
  - apply SFcompare_refl. eapply compare_int_float_nan; eauto.
  - now rewrite Z.compare_refl.
  - apply SFcompare_refl. eapply SFcompare_nan_r; eauto.
Qed.

Lemma le_refl_r (a b : value) : le a b = true -> le b b = true.
Proof.
  unfold le. destruct (as_num a) as [x|]; [|discriminate].
  destruct (as_num b) as [y|]; [|discriminate].
  destruct (num_compare x y) as [c|] eqn:Hc; [|discriminate].
  intros _. now rewrite (num_compare_refl_r x y c Hc).
Qed.

Lemma fed_values_nondecreasing (fs : list value) :
  forall a : value,
    le a a = true ->
    nondecreasing_from a (present fs) ->
    nondecreasing_from a (fed_values a fs).
Proof.
  induction fs as [|f rest IH]; intros a Ha Hs; [exact I|].
  cbn [fed_values]. unfold present in Hs. cbn [filter] in Hs.
  destruct (is_number f).
  - destruct Hs as [Hle Hs]. split; [exact Hle|].
    apply IH; [eapply le_refl_r; eauto | exact Hs].
  - split; [exact Ha|]. now apply IH.
Qed.

Lemma nondecreasing_from_tail (a : value) (l : list value) :
  nondecreasing_from a l -> nondecreasing l.
Proof.
  destruct l as [|b l]; cbn; [auto | tauto].
Qed.

(** C2 as stated fails: a chunk whose end, 3.0, is below its start, 5.0,
    is written as it is; the values converted are 5.0 then 3.0. *)
Lemma converted_values_can_decrease :
  write_srt [inverted_chunk]
  = (Ok tt, "1" ++ nl ++ "00:00:05,000 --> 00:00:03,000" ++ nl
            ++ "a" ++ nl ++ nl)
  /\ flat_map ends (repair (VInt 0) 0 [inverted_chunk])
     = [seconds 5 1; seconds 3 1]
  /\ ~ nondecreasing (flat_map ends (repair (VInt 0) 0 [inverted_chunk])).
Proof.
  split; [vm_compute; reflexivity|]. split; [reflexivity|].
  vm_compute. intros [H _]. discriminate.
Qed.

(** C2, amended: when the numbers present among the timestamp fields,
    taken in order after the initial 0, never decrease, the values the
    loop converts never decrease either (a missing field repeats the
    value before it). *)
Theorem converted_values_nondecreasing :
  forall chunks : list chunk,
    nondecreasing (VInt 0 :: present (fields chunks)) ->
    nondecreasing (VInt 0 :: flat_map ends (repair (VInt 0) 0 chunks))
    /\ nondecreasing (flat_map ends (repair (VInt 0) 0 chunks)).
Proof.
  intros chunks H. rewrite repair_fed_values.
  assert (Hfed : nondecreasing_from (VInt 0) (fed_values (VInt 0) (fields chunks))).
  { apply fed_values_nondecreasing; [reflexivity | exact H]. }
  split; [exact Hfed | eapply nondecreasing_from_tail; eauto].
Qed.

Lemma converted_values_nondecreasing_witness :
  nondecreasing (flat_map ends (repair (VInt 0) 0 hello_world)).
Proof.
  apply (converted_values_nondecreasing hello_world).
  vm_compute. repeat split.
Defined.

(** ** The subtitle file *)

Lemma emit_blocks (cues : list cue) :
  forall (blocks : list string) (file : string),
    Forall2 (fun q b => render_cue q = Ok b) cues blocks ->
    emit cues file = (Ok tt, file ++ srt_file blocks).
Proof.
  induction cues as [|q rest IH]; intros blocks file H; inversion H; subst.
  - cbn. now rewrite append_nil_r.
  - cbn [emit]. unfold bind, io_monad, lift, write. rewrite H2.
    rewrite (IH _ _ H4). f_equal.
    unfold srt_file. cbn. destruct l'; cbn.
    + now rewrite !append_nil_r.
    + now rewrite append_assoc.
Qed.

Lemma fed_values_render (fs : list value) :
  forall a : value,
    renders a = true ->
    forallb convertible fs = true ->
    forallb renders (fed_values a fs) = true.
Proof.
  induction fs as [|f rest IH]; intros a Ha Hfs; [reflexivity|].
  cbn in Hfs. apply andb_prop in Hfs. destruct Hfs as [Hf Hrest].
  cbn [fed_values forallb]. unfold convertible in Hf.
  destruct (is_number f); cbn in Hf.
  - rewrite Hf. cbn. now apply IH.
  - rewrite Ha. cbn. now apply IH.
Qed.

Lemma render_all (cues : list cue) :
  forallb renders (flat_map ends cues) = true ->
  exists blocks, Forall2 (fun q b => render_cue q = Ok b) cues blocks.
Proof.
  induction cues as [|q rest IH]; intros H.
  - exists []. constructor.
  - cbn in H. apply andb_prop in H. destruct H as [Hs H].
    apply andb_prop in H. destruct H as [He H].
    destruct (IH H) as (blocks & Hblocks).
    unfold renders in Hs, He.
    destruct (srt_time_format (cue_start q)) as [st|] eqn:Est; [|discriminate].
    destruct (srt_time_format (cue_end q)) as [en|] eqn:Een; [|discriminate].
    eexists (_ :: blocks). constructor; [|exact Hblocks].
    unfold render_cue. rewrite Est, Een. reflexivity.
Qed.

Lemma render_cue_ok (q : cue) (b : string) :
  render_cue q = Ok b ->
  exists st en,
    srt_time_format (cue_start q) = Ok st
    /\ srt_time_format (cue_end q) = Ok en
    /\ b = str_of_int (cue_index q) ++ nl ++ st ++ " --> " ++ en ++ nl
           ++ cue_text q ++ nl ++ nl.
Proof.
  unfold render_cue.
  destruct (srt_time_format (cue_start q)) as [st|]; cbn; [|discriminate].
  destruct (srt_time_format (cue_end q)) as [en|]; cbn; [|discriminate].
  intros H. injection H as <-. now exists st, en.
Qed.

(** ** Doubles as whole numbers of units *)

Lemma digits2_log2 (p : positive) : Zpos (digits2_pos p) = Z.log2 (Zpos p) + 1.
Proof.
  assert (H : forall q, digits2_pos q = Pos.size q) by (induction q; cbn; congruence).
  destruct p; cbn; rewrite ?H; lia.
Qed.

Lemma Zdigits2_log2 (m : Z) : 0 < m -> Zdigits2 m = Z.log2 m + 1.
Proof. destruct m; try lia. intros _. apply digits2_log2. Qed.

Lemma shr_1_even (N : Z) :
  0 < N ->
  shr_1 {| shr_m := 2 * N; shr_r := false; shr_s := false |}
  = {| shr_m := N; shr_r := false; shr_s := false |}.
Proof. destruct N; try lia. reflexivity. Qed.

Lemma pow2_xO (p : positive) : 2 ^ Zpos p~0 = 2 ^ Zpos p * 2 ^ Zpos p.
Proof.
  replace (Zpos p~0) with (Zpos p + Zpos p) by lia.
  now rewrite Z.pow_add_r by lia.
Qed.

Lemma pow2_xI (p : positive) : 2 ^ Zpos p~1 = 2 * (2 ^ Zpos p * 2 ^ Zpos p).
Proof.
  replace (Zpos p~1) with (1 + (Zpos p + Zpos p)) by lia.
  now rewrite !Z.pow_add_r by lia.
Qed.

Lemma iter_pos_shr_1_exact (p : positive) :
  forall M : Z,
    0 < M ->
    iter_pos shr_1 p {| shr_m := M * 2 ^ Zpos p; shr_r := false; shr_s := false |}
    = {| shr_m := M; shr_r := false; shr_s := false |}.
Proof.
  induction p as [p IH|p IH|]; intros M HM; cbn [iter_pos].
  - replace (M * 2 ^ Zpos p~1) with (2 * (M * 2 ^ Zpos p * 2 ^ Zpos p))
      by (rewrite pow2_xI; ring).
    rewrite shr_1_even by (apply Z.mul_pos_pos; [apply Z.mul_pos_pos|]; lia).
    rewrite IH by (apply Z.mul_pos_pos; lia). now apply IH.
  - replace (M * 2 ^ Zpos p~0) with (M * 2 ^ Zpos p * 2 ^ Zpos p)
      by (rewrite pow2_xO; ring).
    rewrite IH by (apply Z.mul_pos_pos; lia). now apply IH.
  - rewrite Z.pow_1_r, Z.mul_comm. now apply shr_1_even.
Qed.

Lemma fexp_eq (z : Z) : fexp prec emax z = Z.max (z - 53) (-1074).
Proof. reflexivity. Qed.

(** Rounding is exact on a mantissa that only needs trailing zeros
    dropped. *)
Lemma binary_round_aux_exact (s : bool) (M E k : Z) :
  0 < M -> 0 <= k ->
  fexp prec emax (Z.log2 M + 1 + E) = E ->
  E <= 971 ->
  binary_round_aux prec emax s (M * 2 ^ k) (E - k) loc_Exact
  = S754_finite s (Z.to_pos M) E.
Proof.
  intros HM Hk HE Hmax.
  assert (Hpos : 0 < M * 2 ^ k) by (apply Z.mul_pos_pos; lia).
  assert (Hd : Zdigits2 (M * 2 ^ k) + (E - k) = Z.log2 M + 1 + E).
  { rewrite Zdigits2_log2, Z.log2_mul_pow2 by lia. lia. }
  unfold binary_round_aux, shr_fexp. rewrite Hd, HE.
  replace (E - (E - k)) with k by lia. cbn [shr_record_of_loc].
  assert (Hshr : shr {| shr_m := M * 2 ^ k; shr_r := false; shr_s := false |} (E - k) k
                 = ({| shr_m := M; shr_r := false; shr_s := false |}, E)).
  { unfold shr. destruct k as [|p|p]; try lia.
    - rewrite Z.pow_0_r, Z.mul_1_r. f_equal. lia.
    - rewrite iter_pos_shr_1_exact by lia. f_equal. lia. }
  rewrite Hshr. cbn [shr_m loc_of_shr_record round_nearest_even shr_record_of_loc].
  rewrite Zdigits2_log2, HE, Z.sub_diag by lia. cbn [shr shr_m].
  destruct M; try lia. cbn [Z.to_pos].
  apply Z.leb_le in Hmax. unfold prec, emax. cbn [Z.sub Z.pos_sub Pos.pred_double]. 
  replace (1024 - 53) with 971 by reflexivity. now rewrite Hmax.
Qed.

Lemma iter_xO (d p : positive) : Zpos (Pos.iter xO p d) = Zpos p * 2 ^ Zpos d.
Proof.
  induction d as [|d IH] using Pos.peano_ind.
  - cbn. lia.
  - rewrite Pos.iter_succ, Pos2Z.inj_xO, IH, Pos2Z.inj_succ, Z.pow_succ_r by lia.
    ring.
Qed.

Lemma shl_align_spec (mx : positive) (ex ex' : Z) :
  snd (shl_align mx ex ex') = Z.min ex ex'
  /\ Zpos (fst (shl_align mx ex ex'))
     = Zpos mx * 2 ^ (ex - Z.min ex ex').
Proof.
  unfold shl_align. destruct (ex' - ex) as [|d|d] eqn:Hd; cbn [fst snd].
  - replace (Z.min ex ex') with ex by lia. rewrite Z.sub_diag. split; lia.
  - replace (Z.min ex ex') with ex by lia. rewrite Z.sub_diag. split; lia.
  - replace (Z.min ex ex') with ex' by lia. split; [reflexivity|].
    rewrite iter_xO. f_equal. f_equal. lia.
Qed.

Lemma grid_nonneg (u : Z) : 0 <= grid u.
Proof. unfold grid. lia. Qed.

Lemma representable_split (u : Z) :
  0 < u -> representable u ->
  u = u / 2 ^ grid u * 2 ^ grid u
  /\ 0 < u / 2 ^ grid u
  /\ Z.log2 (u / 2 ^ grid u) = Z.log2 u - grid u.
Proof.
  intros Hu Hr. pose proof (grid_nonneg u) as Hg.
  assert (Hp : 0 < 2 ^ grid u) by (apply Z.pow_pos_nonneg; lia).
  assert (Heq : u = u / 2 ^ grid u * 2 ^ grid u).
  { rewrite (Z.div_mod u (2 ^ grid u)) at 1 by lia. unfold representable in Hr.
    rewrite Hr. ring. }
  assert (Hq : 0 < u / 2 ^ grid u).
  { apply Z.div_str_pos. split; [lia|].
    destruct (Z.log2_spec u Hu) as [Hlo _].
    apply Z.le_trans with (2 ^ Z.log2 u); [|exact Hlo].
    apply Z.pow_le_mono_r; [lia|]. unfold grid.
    pose proof (Z.log2_nonneg u). lia. }
  repeat split; auto.
  transitivity (Z.log2 (u / 2 ^ grid u * 2 ^ grid u) - grid u).
  - rewrite Z.log2_mul_pow2 by lia. lia.
  - now rewrite <- Heq.
Qed.

Lemma representable_of_grid (v g : Z) :
  0 <= g -> 0 <= v < 2 ^ (53 + g) -> v mod 2 ^ g = 0 -> representable v.
Proof.
  intros Hg [Hv Hlt] Hmod. unfold representable.
  assert (Hgrid : grid v <= g).
  { unfold grid. destruct (Z.eq_dec v 0) as [->|Hne]; [cbn; lia|].
    assert (Z.log2 v < 53 + g) by (apply Z.log2_lt_pow2; lia). lia. }
  pose proof (grid_nonneg v) as Hg0.
  apply Z.mod_divide; [apply Z.pow_nonzero; lia|].
  apply Z.divide_trans with (2 ^ g).
  - exists (2 ^ (g - grid v)). rewrite <- Z.pow_add_r by lia. f_equal. lia.
  - apply Z.mod_divide; [apply Z.pow_nonzero; lia | exact Hmod].
Qed.

(** Converting a representable dyadic gives the double of that value. *)
Lemma double_of_dyadic_canon (n e : Z) :
  0 <= n -> -1074 <= e ->
  representable (n * 2 ^ (e + 1074)) ->
  grid (n * 2 ^ (e + 1074)) <= 2045 ->
  double_of_dyadic n e false = canon (n * 2 ^ (e + 1074)).
Proof.
  intros Hn He Hr Hg. destruct n as [|p|p]; try lia; [reflexivity|].
  remember (Zpos p * 2 ^ (e + 1074)) as u eqn:Hu_def.
  assert (Hu : 0 < u).
  { subst u. apply Z.mul_pos_pos; [reflexivity | apply Z.pow_pos_nonneg; lia]. }
  destruct (representable_split u Hu Hr) as (Heq & HM & Hlog).
  pose proof (grid_nonneg u) as Hg0.
  remember (u / 2 ^ grid u) as M eqn:HM_def.
  remember (grid u - 1074) as E eqn:HE_def.
  assert (Hlogu : Z.log2 u = Z.log2 (Zpos p) + (e + 1074)).
  { subst u. rewrite Z.log2_mul_pow2 by lia. lia. }
  assert (HE : fexp prec emax (Zpos (digits2_pos p) + e) = E).
  { rewrite digits2_log2, fexp_eq. subst E. unfold grid. lia. }
  assert (Hcanon : canon u = S754_finite false (Z.to_pos M) E).
  { unfold canon. destruct u; try lia. now rewrite <- HM_def, <- HE_def. }
  rewrite Hcanon.
  unfold double_of_dyadic, binary_normalize, binary_round. rewrite HE.
  destruct (shl_align_spec p e E) as [Hez Hmz].
  destruct (shl_align p e E) as [mz ez]. cbn [fst snd] in Hez, Hmz.
  assert (Hmz' : Zpos mz = M * 2 ^ (E - ez)).
  { rewrite Hmz, <- Hez.
    apply (Z.mul_reg_r _ _ (2 ^ (ez + 1074))); [apply Z.pow_nonzero; lia|].
    rewrite <- !Z.mul_assoc, <- !Z.pow_add_r by lia.
    replace (e - ez + (ez + 1074)) with (e + 1074) by lia.
    replace (E - ez + (ez + 1074)) with (grid u) by lia.
    rewrite <- Hu_def. exact Heq. }
  rewrite Hmz'. replace ez with (E - (E - ez)) at 2 by lia.
  apply binary_round_aux_exact; try lia.
  rewrite fexp_eq. unfold grid in *. lia.
Qed.

Lemma canon_units (m : positive) (e : Z) :
  bounded prec emax m e = true ->
  S754_finite false m e = canon (units (S754_finite false m e))
  /\ representable (units (S754_finite false m e))
  /\ 0 < units (S754_finite false m e)
  /\ grid (units (S754_finite false m e)) = e + 1074
  /\ -1074 <= e <= 971.
Proof.
  unfold bounded, canonical_mantissa. intros H.
  apply andb_prop in H. destruct H as [Hc Hb].
  apply Z.eqb_eq in Hc. apply Z.leb_le in Hb.
  rewrite digits2_log2, fexp_eq in Hc.
  replace (emax - prec) with 971 in Hb by reflexivity.
  cbn [units cond_Zopp].
  assert (He : -1074 <= e) by lia.
  remember (Zpos m * 2 ^ (e + 1074)) as u eqn:Hu_def.
  assert (Hu : 0 < u).
  { subst u. apply Z.mul_pos_pos; [reflexivity | apply Z.pow_pos_nonneg; lia]. }
  assert (Hlog : Z.log2 u = Z.log2 (Zpos m) + (e + 1074)).
  { subst u. rewrite Z.log2_mul_pow2 by lia. lia. }
  assert (Hg : grid u = e + 1074) by (unfold grid; lia).
  assert (Hdiv : u / 2 ^ grid u = Zpos m).
  { rewrite Hg. subst u. apply Z.div_mul. apply Z.pow_nonzero; lia. }
  repeat split; try lia.
  - unfold canon. destruct u; try lia.
    rewrite Hdiv, Hg. cbn [Z.to_pos]. f_equal. lia.
  - unfold representable. rewrite Hg. subst u. apply Z.mod_mul.
    apply Z.pow_nonzero; lia.
Qed.

Lemma representable_lt (u : Z) : 0 <= u -> u < 2 ^ (53 + grid u).
Proof.
  intros Hu. destruct (Z.eq_dec u 0) as [->|Hne].
  - apply Z.pow_pos_nonneg; cbn; lia.
  - destruct (Z.log2_spec u) as [_ Hhi]; [lia|].
    eapply Z.lt_le_trans; [exact Hhi|].
    apply Z.pow_le_mono_r; [lia|]. unfold grid. lia.
Qed.

Lemma representable_0 : representable 0.
Proof. reflexivity. Qed.

Lemma canon_pos (u : Z) :
  0 < u -> representable u ->
  exists m : positive,
    canon u = S754_finite false m (grid u - 1074)
    /\ Zpos m * 2 ^ grid u = u.
Proof.
  intros Hu Hr. destruct (representable_split u Hu Hr) as (Heq & HM & _).
  exists (Z.to_pos (u / 2 ^ grid u)). split.
  - unfold canon. destruct u; try lia. reflexivity.
  - rewrite Z2Pos.id by lia. now rewrite <- Heq.
Qed.

Lemma pow2_pos (k : Z) : 0 <= k -> 0 < 2 ^ k.
Proof. intros. apply Z.pow_pos_nonneg; lia. Qed.

Lemma pow2_split (a b : Z) : 0 <= b <= a -> 2 ^ a = 2 ^ (a - b) * 2 ^ b.
Proof. intros. rewrite <- Z.pow_add_r by lia. f_equal. lia. Qed.

Lemma mod_pow2_le (v a b : Z) :
  0 <= b <= a -> v mod 2 ^ a = 0 -> v mod 2 ^ b = 0.
Proof.
  intros Hab Hv. apply Z.mod_divide; [apply Z.pow_nonzero; lia|].
  apply Z.mod_divide in Hv; [|apply Z.pow_nonzero; lia].
  destruct Hv as [c Hc]. exists (c * 2 ^ (a - b)).
  rewrite Hc, (pow2_split a b) by lia. ring.
Qed.

(** The remainder of two representable values is representable, and
    [fmod] computes it. *)
Lemma representable_mod (u w : Z) :
  0 <= u -> 0 < w -> representable u -> representable w ->
  representable (u mod w) /\ grid (u mod w) <= Z.min (grid u) (grid w).
Proof.
  intros Hu Hw Hru Hrw.
  pose proof (grid_nonneg u) as Hgu. pose proof (grid_nonneg w) as Hgw.
  pose proof (Z.mod_pos_bound u w Hw) as Hbound.
  set (g := Z.min (grid u) (grid w)).
  assert (Hdiv : (u mod w) mod 2 ^ g = 0).
  { apply Z.mod_divide; [apply Z.pow_nonzero; lia|].
    rewrite Z.mod_eq by lia. apply Z.divide_sub_r.
    - apply Z.mod_divide; [apply Z.pow_nonzero; lia|].
      apply (mod_pow2_le u (grid u) g); [lia | exact Hru].
    - apply Z.divide_mul_l.
      apply Z.mod_divide; [apply Z.pow_nonzero; lia|].
      apply (mod_pow2_le w (grid w) g); [lia | exact Hrw]. }
  assert (Hlt : u mod w < 2 ^ (53 + g)).
  { destruct (Z.le_ge_cases (grid u) (grid w)).
    - replace g with (grid u) by lia.
      apply Z.le_lt_trans with u; [apply Z.mod_le; lia | now apply representable_lt].
    - replace g with (grid w) by lia.
      apply Z.lt_trans with w; [lia | apply representable_lt; lia]. }
  split.
  - apply (representable_of_grid _ g); [lia | lia | exact Hdiv].
  - unfold grid at 1.
    destruct (Z.eq_dec (u mod w) 0) as [->|Hne]; [cbn; lia|].
    assert (Z.log2 (u mod w) < 53 + g) by (apply Z.log2_lt_pow2; lia). lia.
Qed.

Lemma fmod_canon (u w : Z) :
  0 <= u -> 0 < w -> representable u -> representable w ->
  grid u <= 2045 -> grid w <= 2045 ->
  fmod (canon u) (canon w) = canon (u mod w).
Proof.
  intros Hu Hw Hru Hrw Hgu Hgw.
  destruct (canon_pos w Hw Hrw) as (my & Hcw & Hmy). rewrite Hcw.
  destruct (Z.eq_dec u 0) as [->|Hne]; [reflexivity|].
  destruct (canon_pos u ltac:(lia) Hru) as (mx & Hcu & Hmx). rewrite Hcu.
  pose proof (grid_nonneg u) as Hgu0. pose proof (grid_nonneg w) as Hgw0.
  destruct (representable_mod u w Hu Hw Hru Hrw) as [Hrm Hgm].
  cbn [fmod cond_Zopp].
  set (e := Z.min (grid u - 1074) (grid w - 1074)).
  assert (Hr : (Zpos mx * 2 ^ (grid u - 1074 - e)) mod (Zpos my * 2 ^ (grid w - 1074 - e))
               * 2 ^ (e + 1074) = u mod w).
  { assert (H1 : Zpos my * 2 ^ (grid w - 1074 - e) <> 0).
    { apply Z.neq_mul_0. split; [lia | apply Z.pow_nonzero; lia]. }
    assert (H2 : 2 ^ (e + 1074) <> 0) by (apply Z.pow_nonzero; lia).
    rewrite <- Z.mul_mod_distr_r by assumption.
    rewrite <- !Z.mul_assoc, <- !Z.pow_add_r by lia.
    replace (grid u - 1074 - e + (e + 1074)) with (grid u) by lia.
    replace (grid w - 1074 - e + (e + 1074)) with (grid w) by lia.
    now rewrite Hmx, Hmy. }
  rewrite <- Hr. apply double_of_dyadic_canon.
  - apply Z.mod_pos_bound. apply Z.mul_pos_pos; [lia | apply pow2_pos; lia].
  - lia.
  - now rewrite Hr.
  - rewrite Hr. lia.
Qed.

Lemma fsub_canon (a b : Z) :
  0 <= b <= a -> representable a -> representable b ->
  representable (a - b) -> grid a <= 2045 ->
  fsub (canon a) (canon b) = canon (a - b).
Proof.
  intros [Hb Hab] Hra Hrb Hrd Hga.
  destruct (Z.eq_dec b 0) as [->|Hnb].
  { rewrite Z.sub_0_r. destruct a; try lia; reflexivity. }
  destruct (canon_pos a ltac:(lia) Hra) as (mx & Hca & Hmx).
  destruct (canon_pos b ltac:(lia) Hrb) as (my & Hcb & Hmy).
  rewrite Hca, Hcb.
  pose proof (grid_nonneg a) as Hga0. pose proof (grid_nonneg b) as Hgb0.
  unfold fsub, SFsub.
  set (ez := Z.min (grid a - 1074) (grid b - 1074)).
  destruct (shl_align_spec mx (grid a - 1074) ez) as [_ Hx].
  destruct (shl_align_spec my (grid b - 1074) ez) as [_ Hy].
  rewrite Hx, Hy. cbn [cond_Zopp].
  replace (Z.min (grid a - 1074) ez) with ez by lia.
  replace (Z.min (grid b - 1074) ez) with ez by lia.
  assert (Hval : (Zpos mx * 2 ^ (grid a - 1074 - ez) - Zpos my * 2 ^ (grid b - 1074 - ez))
                 * 2 ^ (ez + 1074) = a - b).
  { rewrite Z.mul_sub_distr_r, <- !Z.mul_assoc, <- !Z.pow_add_r by lia.
    replace (grid a - 1074 - ez + (ez + 1074)) with (grid a) by lia.
    replace (grid b - 1074 - ez + (ez + 1074)) with (grid b) by lia.
    now rewrite Hmx, Hmy. }
  assert (Hp : 0 < 2 ^ (ez + 1074)) by (apply pow2_pos; lia).
  rewrite <- Hval.
  apply (double_of_dyadic_canon _ ez); rewrite ?Hval; try lia.
  - nia.
  - exact Hrd.
  - unfold grid in *. assert (Z.log2 (a - b) <= Z.log2 a) by (apply Z.log2_le_mono; lia). lia.
Qed.

Lemma canon_int (k : Z) :
  0 < k < 2 ^ 53 ->
  canon (k * one_second)
  = S754_finite false (Z.to_pos (k * 2 ^ (52 - Z.log2 k))) (Z.log2 k - 52)
  /\ representable (k * one_second)
  /\ grid (k * one_second) = Z.log2 k + 1022.
Proof.
  intros [Hk Hlt].
  assert (Hl : 0 <= Z.log2 k < 53).
  { split; [apply Z.log2_nonneg | apply Z.log2_lt_pow2; lia]. }
  assert (Hsplit : k * one_second = k * 2 ^ (52 - Z.log2 k) * 2 ^ (Z.log2 k + 1022)).
  { unfold one_second. rewrite <- Z.mul_assoc, <- Z.pow_add_r by lia. do 2 f_equal. lia. }
  assert (Hlog : Z.log2 (k * one_second) = Z.log2 k + 1074).
  { unfold one_second. rewrite Z.log2_mul_pow2 by lia. lia. }
  assert (Hu : 0 < k * one_second) by (apply Z.mul_pos_pos; [lia | reflexivity]).
  remember (k * one_second) as u eqn:Hu_def.
  assert (Hg : grid u = Z.log2 k + 1022) by (unfold grid; lia).
  repeat split; auto.
  - unfold canon. destruct u; try lia. rewrite Hg, Hsplit.
    rewrite Z.div_mul by (apply Z.pow_nonzero; lia).
    f_equal. lia.
  - unfold representable. rewrite Hg, Hsplit. apply Z.mod_mul.
    apply Z.pow_nonzero; lia.
Qed.

Lemma representable_int (k : Z) :
  0 <= k < 2 ^ 53 -> representable (k * one_second) /\ grid (k * one_second) <= 2045.
Proof.
  intros [Hk Hlt]. destruct (Z.eq_dec k 0) as [->|Hne].
  - split; [reflexivity | cbn; lia].
  - destruct (canon_int k ltac:(lia)) as (_ & Hr & Hg). split; [exact Hr|].
    assert (Z.log2 k < 53) by (apply Z.log2_lt_pow2; lia). lia.
Qed.

Lemma new_location_0 (n : Z) : new_location n 0 = loc_Exact.
Proof.
  unfold new_location, new_location_even, new_location_odd.
  destruct (Z.even n); reflexivity.
Qed.

(** An exact quotient that is a whole number below 2^53 is computed
    exactly by the division. *)
Lemma fdiv_canon (k w : Z) :
  0 <= k < 2 ^ 53 -> 0 < w -> representable w -> representable (k * w) ->
  grid (k * w) <= 2045 ->
  fdiv (canon (k * w)) (canon w) = canon (k * one_second).
Proof.
  intros [Hk Hlt] Hw Hrw Hru Hgu.
  destruct (canon_pos w Hw Hrw) as (my & Hcw & Hmy). rewrite Hcw.
  destruct (Z.eq_dec k 0) as [->|Hne]; [reflexivity|].
  assert (Hu : 0 < k * w) by (apply Z.mul_pos_pos; lia).
  destruct (canon_pos (k * w) Hu Hru) as (mx & Hcu & Hmx). rewrite Hcu.
  destruct (canon_int k ltac:(lia)) as (Hck & _ & _). rewrite Hck.
  pose proof (grid_nonneg (k * w)) as Hgu0. pose proof (grid_nonneg w) as Hgw0.
  assert (Hl : 0 <= Z.log2 k < 53).
  { split; [apply Z.log2_nonneg | apply Z.log2_lt_pow2; lia]. }
  remember (grid (k * w) - 1074) as ex eqn:Hex.
  remember (grid w - 1074) as ey eqn:Hey.
  (* magnitudes *)
  assert (Hlu : Z.log2 (k * w) = Z.log2 (Zpos mx) + (ex + 1074)).
  { rewrite <- Hmx at 1. rewrite Z.log2_mul_pow2 by lia. lia. }
  assert (Hlw : Z.log2 w = Z.log2 (Zpos my) + (ey + 1074)).
  { rewrite <- Hmy at 1. rewrite Z.log2_mul_pow2 by lia. lia. }
  assert (Hlo : Z.log2 k + Z.log2 w <= Z.log2 (k * w)) by (apply Z.log2_mul_below; lia).
  assert (Hhi : Z.log2 (k * w) <= Z.log2 k + Z.log2 w + 1) by (apply Z.log2_mul_above; lia).
  unfold fdiv, SFdiv, SFdiv_core_binary.
  rewrite !Zdigits2_log2 by lia.
  remember (Z.min (fexp prec emax (Z.log2 (Zpos mx) + 1 + ex - (Z.log2 (Zpos my) + 1 + ey)))
                  (ex - ey)) as e' eqn:He'.
  rewrite fexp_eq in He'.
  assert (He'0 : e' <= Z.log2 k - 52) by lia.
  remember (ex - ey - e') as s eqn:Hs.
  assert (Hs0 : 0 <= s) by lia.
  assert (Hm' : match s with
                | 0 => Zpos mx
                | Zpos _ => Z.shiftl (Zpos mx) s
                | Zneg _ => 0
                end = Zpos mx * 2 ^ s).
  { destruct s as [|p|p]; try lia. now rewrite Z.shiftl_mul_pow2 by lia. }
  rewrite Hm'.
  assert (Hexact : Zpos mx * 2 ^ s = k * 2 ^ (- e') * Zpos my).
  { assert (Hpow : 2 ^ s * 2 ^ grid w = 2 ^ grid (k * w) * 2 ^ (- e')).
    { rewrite <- !Z.pow_add_r by lia. f_equal. lia. }
    apply (Z.mul_reg_r _ _ (2 ^ grid w)); [apply Z.pow_nonzero; lia|].
    transitivity (Zpos mx * (2 ^ s * 2 ^ grid w)); [ring|]. rewrite Hpow.
    transitivity (Zpos mx * 2 ^ grid (k * w) * 2 ^ (- e')); [ring|].
    rewrite Hmx.
    transitivity (k * (Zpos my * 2 ^ grid w) * 2 ^ (- e')); [now rewrite Hmy | ring]. }
  assert (Hde : Z.div_eucl (Zpos mx * 2 ^ s) (Zpos my) = (k * 2 ^ (- e'), 0)).
  { transitivity ((Zpos mx * 2 ^ s) / Zpos my, (Zpos mx * 2 ^ s) mod Zpos my).
    - unfold Z.div, Z.modulo. now destruct (Z.div_eucl _ _).
    - rewrite Hexact, Z.div_mul, Z.mod_mul by lia. reflexivity. }
  rewrite Hde.
  rewrite new_location_0. cbn [xorb].
  replace (k * 2 ^ (- e')) with (k * 2 ^ (52 - Z.log2 k) * 2 ^ (Z.log2 k - 52 - e')).
  - replace e' with (Z.log2 k - 52 - (Z.log2 k - 52 - e')) at 2 by lia.
    apply binary_round_aux_exact;
      [ apply Z.mul_pos_pos; [lia | apply pow2_pos; lia]
      | lia
      | rewrite Z.log2_mul_pow2, fexp_eq by lia; lia
      | lia ].
  - rewrite <- Z.mul_assoc, <- Z.pow_add_r by lia. do 2 f_equal. lia.
Qed.

Lemma float_of_int_canon (k : Z) :
  0 <= k < 2 ^ 53 -> float_of_int k = Ok (canon (k * one_second)).
Proof.
  intros Hk. destruct (representable_int k Hk) as [Hr Hg].
  unfold float_of_int. rewrite (double_of_dyadic_canon k 0); try lia; auto.
  change (2 ^ (0 + 1074)) with one_second. now destruct (k * one_second).
Qed.

Lemma int_of_float_canon (u : Z) :
  0 <= u -> representable u -> int_of_float (canon u) = Ok (u / one_second).
Proof.
  intros Hu Hr. destruct (Z.eq_dec u 0) as [->|Hne]; [reflexivity|].
  destruct (canon_pos u ltac:(lia) Hr) as (m & Hc & Hm). rewrite Hc.
  pose proof (grid_nonneg u) as Hg.
  cbn [int_of_float cond_Zopp]. f_equal.
  replace (u / one_second) with (Zpos m * 2 ^ grid u / one_second) by (now rewrite Hm).
  unfold one_second.
  destruct (Z.leb_spec 0 (grid u - 1074)) as [Hge|Hlt].
  - rewrite (pow2_split (grid u) 1074), Z.mul_assoc by lia.
    now rewrite Z.div_mul by (apply Z.pow_nonzero; lia).
  - rewrite (pow2_split 1074 (grid u)) by lia.
    rewrite Z.div_mul_cancel_r by (apply Z.pow_nonzero; lia).
    do 2 f_equal. lia.
Qed.

Lemma ffloor_canon_int (k : Z) :
  0 <= k < 2 ^ 53 -> ffloor (canon (k * one_second)) = canon (k * one_second).
Proof.
  intros [Hk Hlt]. destruct (Z.eq_dec k 0) as [->|Hne]; [reflexivity|].
  destruct (canon_int k ltac:(lia)) as (Hc & Hr & Hg). rewrite Hc.
  assert (Hl : 0 <= Z.log2 k < 53).
  { split; [apply Z.log2_nonneg | apply Z.log2_lt_pow2; lia]. }
  cbn [ffloor cond_Zopp].
  destruct (Z.leb_spec 0 (Z.log2 k - 52)) as [Hge|Hl52]; [reflexivity|].
  rewrite Z2Pos.id by (apply Z.mul_pos_pos; [lia | apply pow2_pos; lia]).
  replace (- (Z.log2 k - 52)) with (52 - Z.log2 k) by lia.
  rewrite Z.div_mul by (apply Z.pow_nonzero; lia).
  rewrite <- Hc. rewrite (double_of_dyadic_canon k 0); try lia; auto.
  change (2 ^ (0 + 1074)) with one_second. lia.
Qed.

Lemma fnonzero_canon (u : Z) :
  fnonzero (canon u) = (0 <? u).
Proof. destruct u; reflexivity. Qed.

Lemma fneg_canon (u : Z) : fneg (canon u) = false.
Proof. destruct u; reflexivity. Qed.

Lemma sign_bit_round (m e : Z) (l : location) :
  sign_bit (binary_round_aux prec emax false m e l) = false.
Proof.
  unfold binary_round_aux.
  destruct (shr_fexp prec emax m e l) as [mrs' e'].
  destruct (shr_fexp prec emax _ e' loc_Exact) as [mrs'' e''].
  destruct (shr_m mrs''); [reflexivity | | reflexivity].
  destruct (e'' <=? emax - prec); reflexivity.
Qed.

Lemma sign_bit_fdiv_canon (u w : Z) :
  sign_bit (fdiv (canon u) (canon w)) = false.
Proof.
  destruct u, w; cbn [canon]; try reflexivity.
  unfold fdiv, SFdiv.
  destruct (SFdiv_core_binary _ _ _ _ _ _) as [[mz ez] lz].
  apply sign_bit_round.
Qed.

Lemma div_mod_scale (u w : Z) :
  0 <= u -> 0 < w -> u - u mod w = (u / w) * w.
Proof. intros. rewrite Z.mod_eq by lia. ring. Qed.

(** The interpreter's [divmod] on a non-negative double below 2^53 and
    a positive whole divisor: the exact floor quotient and the exact
    remainder. *)
Lemma float_divmod_canon (u W : Z) :
  0 <= u < 2 ^ 53 * one_second -> 0 < W < 2 ^ 53 ->
  representable u ->
  float_divmod (canon u) (canon (W * one_second))
  = Ok (canon (u / (W * one_second) * one_second), canon (u mod (W * one_second))).
Proof.
  intros [Hu Hlt] HW Hru.
  assert (Hunit : 0 < one_second) by reflexivity.
  remember (W * one_second) as w eqn:Hw_def.
  assert (Hw : 0 < w) by (subst w; apply Z.mul_pos_pos; lia).
  destruct (representable_int W ltac:(lia)) as [Hrw Hgw]. rewrite <- Hw_def in Hrw, Hgw.
  assert (Hgu : grid u <= 2045).
  { unfold grid. destruct (Z.eq_dec u 0) as [->|Hne]; [cbn; lia|].
    assert (Z.log2 u < 53 + 1074).
    { apply Z.log2_lt_pow2; [lia|]. rewrite Z.pow_add_r by lia. exact Hlt. }
    lia. }
  assert (Hk : 0 <= u / w < 2 ^ 53).
  { split; [apply Z.div_pos; lia|].
    apply Z.div_lt_upper_bound; [lia|]. subst w. nia. }
  destruct (representable_mod u w Hu Hw Hru Hrw) as [Hrm Hgm].
  pose proof (Z.mod_pos_bound u w Hw) as Hmb.
  destruct (representable_int (u / w) Hk) as [Hrk Hgk].
  assert (Hkw : u / w * w = u - u mod w) by (rewrite div_mod_scale; lia).
  assert (Hkw_le : 0 <= u / w * w <= u) by lia.
  assert (Hrkw : representable (u / w * w)).
  { apply (representable_of_grid _ 1074); [lia | |].
    - split; [lia|]. rewrite Z.pow_add_r by lia. change (2 ^ 1074) with one_second. lia.
    - change (2 ^ 1074) with one_second. subst w. rewrite Z.mul_assoc.
      apply Z.mod_mul. lia. }
  assert (Hgkw : grid (u / w * w) <= 2045).
  { unfold grid in *. assert (Z.log2 (u / w * w) <= Z.log2 u)
      by (apply Z.log2_le_mono; lia). lia. }
  unfold float_divmod.
  replace (SFeqb (canon w) fzero) with false by (destruct w; try lia; reflexivity).
  rewrite fmod_canon by assumption.
  rewrite fsub_canon; try assumption; [|lia | now rewrite <- Hkw].
  rewrite <- Hkw, fdiv_canon by assumption.
  rewrite fnonzero_canon, !fneg_canon. cbn [xorb].
  replace (copysign fzero (canon w)) with (canon 0)
    by (destruct w; try lia; reflexivity).
  assert (Hmd : (if 0 <? u mod w then (canon (u mod w), canon (u / w * one_second))
                 else (canon 0, canon (u / w * one_second)))
                = (canon (u mod w), canon (u / w * one_second))).
  { destruct (Z.ltb_spec 0 (u mod w)); [reflexivity|].
    replace (u mod w) with 0 by lia. reflexivity. }
  rewrite Hmd. rewrite fnonzero_canon, ffloor_canon_int by assumption.
  rewrite fsub_canon; try assumption; try lia;
    [|rewrite Z.sub_diag; apply representable_0].
  rewrite Z.sub_diag.
  replace (SFltb fhalf (canon 0)) with false by reflexivity.
  destruct (Z.ltb_spec 0 (u / w * one_second)) as [Hpos|Hzero]; [reflexivity|].
  assert (Hq0 : u / w = 0) by nia. rewrite Hq0. cbn [Z.mul].
  unfold copysign, fzero. now rewrite sign_bit_fdiv_canon.
Qed.

Lemma float_rem_canon (u W : Z) :
  0 <= u -> 0 < W < 2 ^ 53 -> representable u -> grid u <= 2045 ->
  float_rem (canon u) (canon (W * one_second)) = Ok (canon (u mod (W * one_second))).
Proof.
  intros Hu HW Hru Hgu.
  remember (W * one_second) as w eqn:Hw_def.
  assert (Hw : 0 < w) by (subst w; apply Z.mul_pos_pos; [lia | reflexivity]).
  destruct (representable_int W ltac:(lia)) as [Hrw Hgw]. rewrite <- Hw_def in Hrw, Hgw.
  unfold float_rem.
  replace (SFeqb (canon w) fzero) with false by (destruct w; try lia; reflexivity).
  rewrite fmod_canon by assumption.
  rewrite fnonzero_canon, !fneg_canon. cbn [xorb].
  replace (copysign fzero (canon w)) with (canon 0)
    by (destruct w; try lia; reflexivity).
  destruct (Z.ltb_spec 0 (u mod w)); [reflexivity|].
  pose proof (Z.mod_pos_bound u w Hw). replace (u mod w) with 0 by lia. reflexivity.
Qed.

(** ** Rounding stays finite below the overflow threshold *)

Lemma shr_1_m (mrs : shr_record) :
  0 <= shr_m mrs -> shr_m (shr_1 mrs) = shr_m mrs / 2.
Proof.
  destruct mrs as [m r s]. cbn [shr_m]. intros Hm.
  destruct m as [|p|p]; try lia; [reflexivity|].
  destruct p as [p|p|]; cbn [shr_1 shr_m].
  - rewrite Pos2Z.inj_xI. apply Z.div_unique with 1; lia.
  - rewrite Pos2Z.inj_xO. apply Z.div_unique with 0; lia.
  - reflexivity.
Qed.

Lemma iter_pos_shr_m (p : positive) :
  forall mrs : shr_record,
    0 <= shr_m mrs ->
    shr_m (iter_pos shr_1 p mrs) = shr_m mrs / 2 ^ Zpos p.
Proof.
  induction p as [p IH|p IH|]; intros mrs Hm; cbn [iter_pos].
  - assert (H1 : 0 <= shr_m (shr_1 mrs)).
    { rewrite shr_1_m by lia. apply Z.div_pos; lia. }
    assert (H2 : 0 <= shr_m (iter_pos shr_1 p (shr_1 mrs))).
    { rewrite IH by lia. apply Z.div_pos; [lia | apply pow2_pos; lia]. }
    rewrite IH, IH, shr_1_m by lia.
    rewrite !Z.div_div by (try apply pow2_pos; lia).
    f_equal. rewrite pow2_xI. ring.
  - assert (H2 : 0 <= shr_m (iter_pos shr_1 p mrs)).
    { rewrite IH by lia. apply Z.div_pos; [lia | apply pow2_pos; lia]. }
    rewrite IH, IH by lia.
    rewrite !Z.div_div by (try apply pow2_pos; lia).
    f_equal. rewrite pow2_xO. ring.
  - rewrite shr_1_m by lia. reflexivity.
Qed.

Lemma shr_m_record_of_loc (m : Z) (l : location) :
  shr_m (shr_record_of_loc m l) = m.
Proof. destruct l as [|[]]; reflexivity. Qed.

Lemma shr_spec (mrs : shr_record) (e n : Z) :
  0 <= shr_m mrs ->
  shr_m (fst (shr mrs e n)) = shr_m mrs / 2 ^ Z.max n 0
  /\ snd (shr mrs e n) = e + Z.max n 0.
Proof.
  intros Hm. unfold shr. destruct n as [|p|p]; cbn [fst snd].
  - cbn. rewrite Z.div_1_r. lia.
  - rewrite iter_pos_shr_m by lia. replace (Z.max (Zpos p) 0) with (Zpos p) by lia.
    split; reflexivity.
  - cbn. rewrite Z.div_1_r. lia.
Qed.

Lemma round_nearest_even_bounds (m : Z) (l : location) :
  m <= round_nearest_even m l <= m + 1.
Proof.
  destruct l as [|[]]; cbn; try lia. destruct (Z.even m); lia.
Qed.

Lemma log2_div_pow2 (m n : Z) :
  0 < m -> 0 <= n -> Z.log2 (m / 2 ^ n) <= Z.log2 m - n \/ m / 2 ^ n = 0.
Proof.
  intros Hm Hn. rewrite <- Z.shiftr_div_pow2 by lia.
  rewrite Z.log2_shiftr by lia.
  destruct (Z.le_gt_cases n (Z.log2 m)); [left; lia | right].
  apply Z.shiftr_eq_0; lia.
Qed.

Lemma binary_round_aux_finite (s : bool) (m e : Z) (l : location) :
  0 < m -> e <= 971 -> Z.log2 m + e <= 1020 ->
  binary_round_aux prec emax s m e l = S754_zero s
  \/ exists (m' : positive) (e' : Z),
       binary_round_aux prec emax s m e l = S754_finite s m' e'.
Proof.
  intros Hm He Hlog. unfold binary_round_aux, shr_fexp.
  rewrite Zdigits2_log2, fexp_eq by lia.
  remember (Z.max (Z.log2 m + 1 + e - 53) (-1074) - e) as n1 eqn:Hn1.
  destruct (shr_spec (shr_record_of_loc m l) e n1) as [Hm1 He1];
    [rewrite shr_m_record_of_loc; lia|].
  rewrite shr_m_record_of_loc in Hm1.
  destruct (shr (shr_record_of_loc m l) e n1) as [mrs' e'].
  cbn [fst snd] in Hm1, He1.
  pose proof (round_nearest_even_bounds (shr_m mrs') (loc_of_shr_record mrs')) as Hr.
  remember (round_nearest_even (shr_m mrs') (loc_of_shr_record mrs')) as m1 eqn:Hm1def.
  assert (Hm'0 : 0 <= shr_m mrs').
  { rewrite Hm1. apply Z.div_pos; [lia | apply pow2_pos; lia]. }
  assert (Hd1 : m1 = 0 \/ (0 < m1 /\ Z.log2 m1 + e' <= Z.max (Z.log2 m + e + 1) (-1074))).
  { destruct (Z.eq_dec m1 0) as [|Hne]; [left; assumption | right].
    split; [lia|].
    destruct (Z.eq_dec (shr_m mrs') 0) as [Hz|Hnz].
    - assert (m1 = 1) by lia. subst m1. 
      replace (round_nearest_even (shr_m mrs') (loc_of_shr_record mrs')) with 1 by lia.
      cbn [Z.log2].
      (* nothing is left of the mantissa: the shift exceeded its size *)
      assert (Hsh : Z.log2 m < Z.max n1 0).
      { destruct (Z.le_gt_cases (Z.max n1 0) (Z.log2 m)) as [Hle|]; [|lia].
        exfalso. assert (2 ^ Z.max n1 0 <= m).
        { apply Z.le_trans with (2 ^ Z.log2 m);
            [apply Z.pow_le_mono_r; lia | apply Z.log2_spec; lia]. }
        assert (0 < m / 2 ^ Z.max n1 0)
          by (apply Z.div_str_pos; split; [apply pow2_pos; lia | lia]).
        lia. }
      pose proof (Z.log2_nonneg m). lia.
    - assert (Z.log2 m1 <= Z.log2 (shr_m mrs') + 1).
      { apply Z.le_trans with (Z.log2 (2 * shr_m mrs')).
        - apply Z.log2_le_mono. lia.
        - rewrite Z.log2_double by lia. lia. }
      destruct (log2_div_pow2 m (Z.max n1 0)) as [Hl|Hl]; try lia.
      rewrite <- Hm1 in Hl. lia. }
  destruct Hd1 as [Hz|[Hpos Hlog1]].
  - rewrite Hz. cbn [shr_record_of_loc].
    match goal with |- context [shr ?r ?a ?b] =>
      destruct (shr_spec r a b) as [Hm2 _]; [cbn; lia|];
      destruct (shr r a b) as [mrs'' e'']
    end.
    cbn [fst shr_m] in Hm2. rewrite Z.div_0_l in Hm2 by (apply Z.pow_nonzero; lia).
    rewrite Hm2. left. reflexivity.
  - rewrite Zdigits2_log2, fexp_eq by lia. cbn [shr_record_of_loc].
    remember (Z.max (Z.log2 m1 + 1 + e' - 53) (-1074) - e') as n2 eqn:Hn2.
    destruct (shr_spec {| shr_m := m1; shr_r := false; shr_s := false |} e' n2)
      as [Hm2 He2]; [cbn; lia|].
    destruct (shr {| shr_m := m1; shr_r := false; shr_s := false |} e' n2)
      as [mrs'' e''].
    cbn [fst snd shr_m] in Hm2, He2.
    assert (Hm2pos : 0 <= shr_m mrs'').
    { rewrite Hm2. apply Z.div_pos; [lia | apply pow2_pos; lia]. }
    destruct (shr_m mrs'') as [|p|p]; try lia; [left; reflexivity|].
    right. exists p, e''.
    replace (e'' <=? emax - prec) with true; [reflexivity|].
    symmetry. apply Z.leb_le. change (emax - prec) with 971. lia.
Qed.

Lemma int_of_float_truncate (x : double) :
  is_finite x = true -> int_of_float x = Ok (truncate x).
Proof. destruct x; cbn; congruence. Qed.

Lemma canon_1000 : canon (1000 * one_second) = f1000.
Proof. vm_compute. reflexivity. Qed.

Lemma fmul_fraction (f : Z) :
  0 <= f < one_second -> representable f ->
  is_finite (fmul (canon f) f1000) = true
  /\ 0 <= truncate (fmul (canon f) f1000).
Proof.
  intros [Hf Hlt] Hr. destruct (Z.eq_dec f 0) as [->|Hne]; [split; [reflexivity | cbn; lia]|].
  destruct (canon_pos f ltac:(lia) Hr) as (mx & Hc & Hm). rewrite Hc.
  pose proof (grid_nonneg f) as Hg.
  assert (Hlf : Z.log2 f < 1074) by (apply Z.log2_lt_pow2; [lia | exact Hlt]).
  assert (Hlm : Z.log2 f = Z.log2 (Zpos mx) + grid f).
  { rewrite <- Hm at 1. rewrite Z.log2_mul_pow2 by lia. lia. }
  assert (Hgf : grid f <= 1021) by (unfold grid in *; lia).
  unfold fmul, f1000, SFmul. cbn [xorb].
  remember (Zpos (mx * 8796093022208000)) as m eqn:Hmdef.
  assert (Hlp : Z.log2 m <= Z.log2 (Zpos mx) + 53).
  { subst m. rewrite Pos2Z.inj_mul.
    eapply Z.le_trans; [apply Z.log2_mul_above; lia|].
    change (Z.log2 8796093022208000) with 52. lia. }
  destruct (binary_round_aux_finite false m (grid f - 1074 + -43) loc_Exact)
    as [Hz|(m' & e' & Hfin)]; try lia.
  - rewrite Hz. split; [reflexivity | cbn; lia].
  - rewrite Hfin. split; [reflexivity|]. cbn [truncate cond_Zopp].
    destruct (Z.leb_spec 0 e').
    + apply Z.mul_nonneg_nonneg; [lia | apply Z.pow_nonneg; lia].
    + apply Z.div_pos; [lia | apply pow2_pos; lia].
Qed.

(** ** Rounding never goes more than half a step up *)

Lemma iter_pos_iter {A : Type} (f : A -> A) (p : positive) :
  forall x : A, iter_pos f p x = Pos.iter f x p.
Proof.
  induction p as [p IH|p IH|]; intros x; cbn [iter_pos Pos.iter].
  - now rewrite !IH, !Pos.iter_swap.
  - now rewrite !IH.
  - reflexivity.
Qed.

Lemma shr_1_r (mrs : shr_record) :
  0 <= shr_m mrs -> shr_r (shr_1 mrs) = Z.odd (shr_m mrs).
Proof.
  destruct mrs as [m r s]. cbn [shr_m]. intros Hm.
  destruct m as [|p|p]; try lia; [reflexivity|].
  destruct p; reflexivity.
Qed.

Lemma iter_shr_1 (p : positive) (mrs : shr_record) :
  0 <= shr_m mrs ->
  shr_m (Pos.iter shr_1 mrs p) = shr_m mrs / 2 ^ Zpos p
  /\ shr_r (Pos.iter shr_1 mrs p) = Z.odd (shr_m mrs / 2 ^ (Zpos p - 1)).
Proof.
  intros Hm. induction p as [|p [IHm IHr]] using Pos.peano_ind.
  - cbn [Pos.iter]. rewrite shr_1_m, shr_1_r by lia.
    change (2 ^ (1 - 1)) with 1. rewrite Z.div_1_r. split; reflexivity.
  - rewrite Pos.iter_succ.
    assert (H0 : 0 <= shr_m (Pos.iter shr_1 mrs p)).
    { rewrite IHm. apply Z.div_pos; [lia | apply pow2_pos; lia]. }
    rewrite shr_1_m, shr_1_r, IHm by lia. split.
    + rewrite Z.div_div by (try apply pow2_pos; lia).
      f_equal. rewrite Pos2Z.inj_succ, Z.pow_succ_r by lia. ring.
    + replace (Zpos (Pos.succ p) - 1) with (Zpos p) by lia. reflexivity.
Qed.

Lemma round_half_up (m p : Z) (mrs : shr_record) :
  0 <= m -> 0 < p ->
  shr_m mrs = m / 2 ^ p ->
  shr_r mrs = Z.odd (m / 2 ^ (p - 1)) ->
  2 * round_nearest_even (shr_m mrs) (loc_of_shr_record mrs) * 2 ^ p
  <= 2 * m + 2 ^ p.
Proof.
  intros Hm Hp Hq Hr.
  assert (Hpow : 2 ^ p = 2 * 2 ^ (p - 1)).
  { rewrite <- Z.pow_succ_r by lia. f_equal. lia. }
  assert (Hpp : 0 < 2 ^ (p - 1)) by (apply pow2_pos; lia).
  assert (Hdiv : m / 2 ^ p = m / 2 ^ (p - 1) / 2).
  { rewrite Z.div_div by lia. f_equal. lia. }
  pose proof (Z.mul_div_le m (2 ^ p) ltac:(lia)) as Hfloor.
  pose proof (Z.mul_div_le m (2 ^ (p - 1)) Hpp) as Hfloor'.
  destruct mrs as [q r s]. cbn [shr_m shr_r] in *. subst q r.
  destruct (Z.odd (m / 2 ^ (p - 1))) eqn:Hodd.
  - (* the dropped part is at least half a step *)
    assert (Hq : m / 2 ^ (p - 1) = 2 * (m / 2 ^ p) + 1).
    { rewrite Hdiv. rewrite (Z.div2_odd (m / 2 ^ (p - 1))) at 1.
      rewrite Hodd, Z.div2_div. reflexivity. }
    assert (Hup : round_nearest_even (m / 2 ^ p)
                    (loc_of_shr_record
                       {| shr_m := m / 2 ^ p; shr_r := true; shr_s := s |})
                  <= m / 2 ^ p + 1).
    { apply round_nearest_even_bounds. }
    nia.
  - assert (Hdown : round_nearest_even (m / 2 ^ p)
                      (loc_of_shr_record
                         {| shr_m := m / 2 ^ p; shr_r := false; shr_s := s |})
                    = m / 2 ^ p).
    { destruct s; reflexivity. }
    rewrite Hdown. nia.
Qed.

Lemma binary_round_aux_upper (s : bool) (m e : Z) (m2 : positive) (e2 : Z) :
  0 < m ->
  binary_round_aux prec emax s m e loc_Exact = S754_finite s m2 e2 ->
  let n := Z.max (fexp prec emax (Zdigits2 m + e) - e) 0 in
  e <= e2 /\ 2 * (Zpos m2 * 2 ^ (e2 - e)) <= 2 * m + 2 ^ n.
Proof.
  intros Hm. unfold binary_round_aux, shr_fexp. cbn [shr_record_of_loc].
  remember (fexp prec emax (Zdigits2 m + e) - e) as n1 eqn:Hn1.
  set (mrs0 := {| shr_m := m; shr_r := false; shr_s := false |}).
  destruct (shr_spec mrs0 e n1) as [Hm1 He1]; [cbn [mrs0 shr_m]; lia|].
  assert (Hround : 2 * round_nearest_even (shr_m (fst (shr mrs0 e n1)))
                         (loc_of_shr_record (fst (shr mrs0 e n1)))
                   * 2 ^ Z.max n1 0 <= 2 * m + 2 ^ Z.max n1 0).
  { destruct n1 as [|p|p].
    - cbn. lia.
    - replace (Z.max (Zpos p) 0) with (Zpos p) by lia.
      apply round_half_up; try lia.
      + cbn [shr fst]. rewrite iter_pos_iter.
        apply (iter_shr_1 p mrs0). cbn; lia.
      + cbn [shr fst]. rewrite iter_pos_iter.
        apply (iter_shr_1 p mrs0). cbn; lia.
    - cbn. lia. }
  destruct (shr mrs0 e n1) as [mrs' e']. cbn [fst snd] in Hm1, He1, Hround.
  subst mrs0. cbn [shr_m] in Hm1.
  pose proof (round_nearest_even_bounds (shr_m mrs') (loc_of_shr_record mrs')) as Hb.
  remember (round_nearest_even (shr_m mrs') (loc_of_shr_record mrs')) as m1 eqn:Hm1def.
  assert (Hm'0 : 0 <= shr_m mrs').
  { rewrite Hm1. apply Z.div_pos; [lia | apply pow2_pos; lia]. }
  remember (fexp prec emax (Zdigits2 m1 + e') - e') as n2 eqn:Hn2.
  destruct (shr_spec {| shr_m := m1; shr_r := false; shr_s := false |} e' n2)
    as [Hm2 He2]; [cbn [shr_m]; lia|].
  destruct (shr {| shr_m := m1; shr_r := false; shr_s := false |} e' n2)
    as [mrs'' e''].
  cbn [fst snd shr_m] in Hm2, He2.
  destruct (shr_m mrs'') as [|q|q] eqn:Hq; try discriminate.
  destruct (e'' <=? emax - prec); try discriminate.
  intros H. injection H as -> ->. cbn zeta.
  split; [lia|].
  assert (Hp1 : 0 < 2 ^ Z.max n1 0) by (apply pow2_pos; lia).
  assert (Hp2 : 0 < 2 ^ Z.max n2 0) by (apply pow2_pos; lia).
  pose proof (Z.mul_div_le m1 (2 ^ Z.max n2 0) Hp2) as Hfl.
  rewrite <- Hm2 in Hfl.
  replace (e2 - e) with (Z.max n2 0 + Z.max n1 0) by lia.
  rewrite Z.pow_add_r by lia. nia.
Qed.

(** The product of a fraction and 1000.0 stays below 1000.0: the
    largest double below 1 is more than half a step of the result away
    from the bound. *)
Lemma fmul_fraction_below_1000 (f : Z) :
  0 <= f < one_second -> representable f ->
  truncate (fmul (canon f) f1000) <= 999.
Proof.
  intros [Hf Hlt] Hr. destruct (Z.eq_dec f 0) as [->|Hne]; [cbn; lia|].
  destruct (canon_pos f ltac:(lia) Hr) as (mx & Hc & Hm). rewrite Hc.
  pose proof (grid_nonneg f) as Hg.
  assert (Hlf : Z.log2 f < 1074) by (apply Z.log2_lt_pow2; [lia | exact Hlt]).
  assert (Hlm : Z.log2 f = Z.log2 (Zpos mx) + grid f).
  { rewrite <- Hm at 1. rewrite Z.log2_mul_pow2 by lia. lia. }
  assert (Hgf : grid f <= 1021) by (unfold grid in *; lia).
  assert (Hlmx : Z.log2 (Zpos mx) <= 52) by (unfold grid in *; lia).
  remember (1074 - grid f) as t eqn:Ht.
  assert (Hmx : Zpos mx + 1 <= 2 ^ t).
  { assert (Zpos mx < 2 ^ t); [|lia].
    apply (Z.mul_lt_mono_pos_r (2 ^ grid f)); [apply pow2_pos; lia|].
    rewrite Hm, <- Z.pow_add_r by lia.
    replace (t + grid f) with 1074 by lia. exact Hlt. }
  unfold fmul, f1000, SFmul. cbn [xorb].
  remember (Zpos (mx * 8796093022208000)) as m eqn:Hmdef.
  assert (Hmval : m = Zpos mx * 8796093022208000) by (subst m; apply Pos2Z.inj_mul).
  assert (Hlp : Z.log2 m <= Z.log2 (Zpos mx) + 53).
  { rewrite Hmval. eapply Z.le_trans; [apply Z.log2_mul_above; lia|].
    change (Z.log2 8796093022208000) with 52. lia. }
  remember (grid f - 1074 + -43) as e eqn:He.
  destruct (binary_round_aux_finite false m e loc_Exact)
    as [Hz|(m' & e' & Hfin)]; try lia.
  - rewrite Hz. cbn. lia.
  - rewrite Hfin. cbn [truncate cond_Zopp].
    destruct (binary_round_aux_upper false m e m' e' ltac:(lia) Hfin) as [Hee Hup].
    rewrite Zdigits2_log2, fexp_eq in Hup by lia.
    assert (Hn : 2 ^ Z.max (Z.max (Z.log2 m + 1 + e - 53) (-1074) - e) 0 <= 2 ^ 53).
    { apply Z.pow_le_mono_r; lia. }
    assert (Hscale : Zpos m' * 2 ^ (e' - e) < 1000 * 2 ^ (- e)).
    { replace (- e) with (43 + t) by lia. rewrite Z.pow_add_r by lia.
      change (2 ^ 43) with 8796093022208. change (2 ^ 53) with 9007199254740992 in Hn.
      nia. }
    assert (Hpe : 0 < 2 ^ (e' - e)) by (apply pow2_pos; lia).
    destruct (Z.leb_spec 0 e') as [Hpos|Hneg].
    + assert (Hsplit : 2 ^ (e' - e) = 2 ^ e' * 2 ^ (- e)).
      { rewrite <- Z.pow_add_r by lia; f_equal; lia. }
      assert (Hp : 0 < 2 ^ (- e)) by (apply pow2_pos; lia).
      rewrite Hsplit in Hscale. nia.
    + assert (Hsplit : 2 ^ (- e) = 2 ^ (- e') * 2 ^ (e' - e)).
      { rewrite <- Z.pow_add_r by lia; f_equal; lia. }
      assert (Hp : 0 < 2 ^ (- e')) by (apply pow2_pos; lia).
      rewrite Hsplit in Hscale.
      assert (Zpos m' / 2 ^ (- e') < 1000); [|lia].
      apply Z.div_lt_upper_bound; [lia | nia].
Qed.

Lemma floordiv_canon (u W : Z) :
  0 <= u < 2 ^ 53 * one_second -> 0 < W < 2 ^ 53 -> representable u ->
  floordiv (NFloat (canon u)) (NInt W)
  = Ok (NFloat (canon (u / (W * one_second) * one_second))).
Proof.
  intros Hu HW Hr. unfold floordiv, float_floor_div.
  rewrite float_of_int_canon by lia. cbn [bind result_monad].
  rewrite float_divmod_canon by assumption. reflexivity.
Qed.

Lemma grid_below (u : Z) : 0 <= u < 2 ^ 53 * one_second -> grid u <= 2045.
Proof.
  intros [Hu Hlt]. unfold grid. destruct (Z.eq_dec u 0) as [->|Hne]; [cbn; lia|].
  assert (Z.log2 u < 53 + 1074).
  { apply Z.log2_lt_pow2; [lia|]. rewrite Z.pow_add_r by lia. exact Hlt. }
  lia.
Qed.

Lemma modulo_canon (u W : Z) :
  0 <= u < 2 ^ 53 * one_second -> 0 < W < 2 ^ 53 -> representable u ->
  modulo (NFloat (canon u)) (NInt W) = Ok (NFloat (canon (u mod (W * one_second)))).
Proof.
  intros Hu HW Hr. unfold modulo.
  rewrite float_of_int_canon by lia. cbn [bind result_monad].
  rewrite float_rem_canon; try assumption; try lia; [reflexivity|].
  now apply grid_below.
Qed.

Lemma representable_unit_multiple (W : Z) :
  0 < W < 2 ^ 53 -> representable (W * one_second) /\ 0 < W * one_second.
Proof.
  intros HW. destruct (representable_int W ltac:(lia)) as [Hr _].
  split; [exact Hr | apply Z.mul_pos_pos; [lia | reflexivity]].
Qed.

Lemma srt_time_format_canon (u : Z) :
  0 <= u < 2 ^ 53 * one_second -> representable u ->
  let rem := u mod (3600 * one_second) in
  let rem' := rem mod (60 * one_second) in
  srt_time_format (VFloat (canon u))
  = Ok (timecode (u / (3600 * one_second)) (rem / (60 * one_second)) (rem' / one_second)
          (truncate (fmul (canon (rem' mod one_second)) f1000))).
Proof.
  intros Hu Hr rem rem'.
  assert (Hunit : 0 < one_second) by reflexivity.
  destruct (representable_unit_multiple 3600 ltac:(lia)) as [Hr3600 Hp3600].
  destruct (representable_unit_multiple 60 ltac:(lia)) as [Hr60 Hp60].
  destruct (representable_unit_multiple 1 ltac:(lia)) as [Hr1 Hp1].
  rewrite Z.mul_1_l in Hr1, Hp1.
  pose proof (Z.mod_pos_bound u (3600 * one_second) Hp3600) as Hb1. fold rem in Hb1.
  pose proof (Z.mod_pos_bound rem (60 * one_second) Hp60) as Hb2. fold rem' in Hb2.
  pose proof (Z.mod_pos_bound rem' one_second Hunit) as Hb3.
  destruct (representable_mod u (3600 * one_second)) as [Hrrem _]; try assumption; try lia.
  fold rem in Hrrem.
  destruct (representable_mod rem (60 * one_second)) as [Hrrem' _]; try assumption; try lia.
  fold rem' in Hrrem'.
  destruct (representable_mod rem' one_second) as [Hrfrac _]; try assumption; try lia.
  assert (H53 : 3600 * one_second < 2 ^ 53 * one_second) by (apply Z.mul_lt_mono_pos_r; lia).
  assert (H53' : 60 * one_second < 2 ^ 53 * one_second) by (apply Z.mul_lt_mono_pos_r; lia).
  assert (Hk1 : 0 <= u / (3600 * one_second) < 2 ^ 53).
  { split; [apply Z.div_pos; lia | apply Z.div_lt_upper_bound; [lia | nia]]. }
  assert (Hk2 : 0 <= rem / (60 * one_second) < 2 ^ 53).
  { split; [apply Z.div_pos; lia | apply Z.div_lt_upper_bound; [lia | nia]]. }
  assert (Hk3 : 0 <= rem' / one_second < 60).
  { split; [apply Z.div_pos; lia | apply Z.div_lt_upper_bound; lia]. }
  unfold srt_time_format. cbn [as_num].
  rewrite floordiv_canon by (assumption || lia). cbn [bind result_monad].
  rewrite modulo_canon by (assumption || lia). cbn [bind result_monad]. fold rem.
  rewrite floordiv_canon by (assumption || lia). cbn [bind result_monad].
  rewrite modulo_canon by (assumption || lia). cbn [bind result_monad]. fold rem'.
  cbn [to_int]. rewrite int_of_float_canon by (assumption || lia).
  cbn [bind result_monad]. unfold minus.
  rewrite float_of_int_canon by lia. cbn [bind result_monad ret].
  assert (Hfrac : rem' - rem' / one_second * one_second = rem' mod one_second)
    by (rewrite Z.mod_eq by lia; ring).
  rewrite fsub_canon; try assumption.
  2:{ split; [apply Z.mul_nonneg_nonneg; lia|]. 
      rewrite Z.mul_comm. apply Z.mul_div_le. lia. }
  2:{ apply (representable_int (rem' / one_second)). lia. }
  2:{ now rewrite Hfrac. }
  2:{ apply grid_below. lia. }
  rewrite Hfrac. unfold times.
  rewrite float_of_int_canon by lia. cbn [bind result_monad ret].
  rewrite canon_1000.
  destruct (fmul_fraction (rem' mod one_second) ltac:(lia) Hrfrac) as [Hfin _].
  cbn [to_int]. rewrite (int_of_float_truncate _ Hfin). cbn [bind result_monad ret].
  rewrite !int_of_float_canon; try lia;
    try (apply representable_int; lia); try assumption.
  cbn [bind result_monad ret].
  rewrite !Z.div_mul by lia. reflexivity.
Qed.

(** ** The conversion to a time code *)

Lemma srt_time_format_int (z : Z) :
  srt_time_format (VInt z)
  = Ok (timecode (z / 3600) (z mod 3600 / 60) (z mod 3600 mod 60) 0).
Proof.
  unfold srt_time_format. cbn. now rewrite Z.sub_diag.
Qed.

Lemma below_spec (n : nat) (z : Z) :
  0 <= z < Z.of_nat n -> In z (below n).
Proof.
  intros Hz. unfold below. apply in_map_iff. exists (Z.to_nat z).
  split; [lia | apply in_seq; lia].
Qed.

(** Padding: a field below 100 takes exactly two characters, and a
    field below 1000 exactly three. *)
Lemma format_d_two (z : Z) :
  0 <= z < 100 -> String.length (format_d 2 z) = 2%nat.
Proof.
  intros Hz.
  assert (Hall : forallb (fun k => Nat.eqb (String.length (format_d 2 k)) 2)
                   (below 100) = true) by (vm_compute; reflexivity).
  rewrite forallb_forall in Hall.
  apply Nat.eqb_eq, Hall, below_spec. lia.
Qed.

Lemma format_d_three (z : Z) :
  0 <= z < 1000 -> String.length (format_d 3 z) = 3%nat.
Proof.
  intros Hz.
  assert (Hall : forallb (fun k => Nat.eqb (String.length (format_d 3 k)) 3)
                   (below 1000) = true) by (vm_compute; reflexivity).
  rewrite forallb_forall in Hall.
  apply Nat.eqb_eq, Hall, below_spec. lia.
Qed.

Lemma f3661_001_bits : f3661_001 = S754_finite false 0x1c9a0083126e98 (-41).
Proof. vm_compute. reflexivity. Qed.

Lemma srt_time_format_double (x : double) :
  valid_binary prec emax x = true ->
  nonnegative x = true ->
  units x < 2 ^ 53 * one_second ->
  let remainder := units x mod (3600 * one_second) in
  let remainder' := remainder mod (60 * one_second) in
  let millis := truncate (fmul (canon (remainder' mod one_second)) f1000) in
  srt_time_format (VFloat x)
  = Ok (timecode (units x / (3600 * one_second))
          (remainder / (60 * one_second)) (remainder' / one_second) millis)
  /\ 0 <= millis <= 999.
Proof.
  intros Hvalid Hnonneg Hlt remainder remainder' millis.
  assert (Hone : 0 < one_second) by reflexivity.
  assert (Hfrac : 0 <= remainder' mod one_second < one_second)
    by (apply Z.mod_pos_bound; exact Hone).
  assert (Hmillis : representable (units x) -> 0 <= units x -> 0 <= millis <= 999).
  { intros Hr Hu.
    assert (H3600 : 0 < 3600 * one_second) by lia.
    assert (H60 : 0 < 60 * one_second) by lia.
    destruct (representable_int 3600 ltac:(lia)) as [Hr3600 _].
    destruct (representable_int 60 ltac:(lia)) as [Hr60 _].
    destruct (representable_int 1 ltac:(lia)) as [Hr1 _].
    rewrite Z.mul_1_l in Hr1.
    destruct (representable_mod (units x) (3600 * one_second)) as [Hrem _];
      try assumption.
    fold remainder in Hrem.
    pose proof (Z.mod_pos_bound (units x) (3600 * one_second) H3600) as Hb.
    fold remainder in Hb.
    destruct (representable_mod remainder (60 * one_second)) as [Hrem' _];
      try assumption; try lia.
    fold remainder' in Hrem'.
    pose proof (Z.mod_pos_bound remainder (60 * one_second) H60) as Hb'.
    fold remainder' in Hb'.
    destruct (representable_mod remainder' one_second) as [Hrfrac _];
      try assumption; try lia.
    split.
    - now apply fmul_fraction.
    - now apply fmul_fraction_below_1000. }
  destruct x as [s|s| |s m e]; try discriminate.
  - (* either zero *)
    split; [destruct s; vm_compute; reflexivity|].
    apply Hmillis; [reflexivity | cbn; lia].
  - destruct s; [discriminate|].
    destruct (canon_units m e Hvalid) as (Hx & Hr & Hpos & _ & _).
    split; [|apply Hmillis; [exact Hr | lia]].
    rewrite Hx at 1. apply srt_time_format_canon; [lia | exact Hr].
Qed.

(** What the double arithmetic does at a few values. The literal [1.2]
    is a double just below 1.2, and is rendered with 199 milliseconds.
    The literal [0.29] is a double just below 0.29: its exact product
    by 1000 is below 290, but the double product is 290.0. *)
Example literal_1_2 : srt_time_format (seconds 12 10) = Ok "00:00:01,199".
Proof. vm_compute. reflexivity. Qed.

Example literal_0_29 :
  srt_time_format (seconds 29 100) = Ok "00:00:00,290"
  /\ units (float_of_decimal 29 100) * 1000 / one_second = 289.
Proof. split; vm_compute; reflexivity. Qed.

(** Outside the range of the theorem below: a negative value gets a
    negative hour; at 1e22 the float quotient is no longer the exact
    one, which is 2777777777777777777; NaN and the infinities make
    [int] raise. *)
Example negative_seconds :
  srt_time_format (seconds (-15) 10) = Ok "-1:59:58,500".
Proof. vm_compute. reflexivity. Qed.

Example seconds_1e22 :
  srt_time_format (seconds (10 ^ 22) 1) = Ok "2777777777777777664:46:40,000"
  /\ 10 ^ 22 / 3600 = 2777777777777777777.
Proof. split; vm_compute; reflexivity. Qed.

Example not_finite :
  srt_time_format (VFloat S754_nan) = Raise ValueError
  /\ srt_time_format (VFloat (S754_infinity false)) = Raise ValueError.
Proof. split; vm_compute; reflexivity. Qed.




(** ** The subtitle file, as a whole *)

Lemma hello_world_file :
  write_srt hello_world
  = (Ok tt,
     "1" ++ nl ++ "00:00:00,000 --> 00:00:01,500" ++ nl ++ "hello" ++ nl ++ nl
     ++ "2" ++ nl ++ "00:00:01,500 --> 00:00:01,500" ++ nl ++ "world" ++ nl
     ++ nl).
Proof. vm_compute. reflexivity. Qed.

(** ** Decimal numerals *)

Lemma digits_value_step (c : ascii) (k acc : Z) (b : bool) (r : string) :
  is_digit c = true -> digit_value c = k ->
  digits_value acc b (String c r) = digits_value (10 * acc + k) true r.
Proof. intros Hc Hk. cbn [digits_value]. now rewrite Hc, Hk. Qed.

Lemma digits_value_acc (d : Decimal.uint) :
  forall acc : positive,
    digits_value (Zpos acc) true (NilEmpty.string_of_uint d)
    = Some (Zpos (Pos.of_uint_acc d acc)).
Proof.
  induction d; intros acc; cbn [NilEmpty.string_of_uint Pos.of_uint_acc];
    [reflexivity | ..];
    (erewrite digits_value_step; [|reflexivity|reflexivity]);
    match goal with
    | |- context [digit_value ?c] =>
        let v := eval vm_compute in (digit_value c) in
        change (digit_value c) with v
    end;
    rewrite <- IHd; f_equal; lia.
Qed.

Lemma digits_value_uint (d : Decimal.uint) :
  forall after_digit : bool,
    d <> Decimal.Nil \/ after_digit = true ->
    digits_value 0 after_digit (NilEmpty.string_of_uint d)
    = Some (Z.of_N (Pos.of_uint d)).
Proof.
  induction d; intros b Hb; cbn [NilEmpty.string_of_uint Pos.of_uint];
    [destruct Hb as [Hb| ->]; [congruence | reflexivity] | ..];
    (erewrite digits_value_step; [|reflexivity|reflexivity]);
    match goal with
    | |- context [digit_value ?c] =>
        let v := eval vm_compute in (digit_value c) in
        change (digit_value c) with v
    end;
    [apply IHd; now right | ..];
    match goal with
    | |- _ = Some (Z.of_N (Npos (Pos.of_uint_acc _ ?k))) =>
        apply (digits_value_acc d k)
    end.
Qed.

Lemma all_digits_uint (d : Decimal.uint) :
  all_chars is_digit (NilEmpty.string_of_uint d) = true.
Proof. induction d; cbn [NilEmpty.string_of_uint all_chars]; auto. Qed.

Lemma all_chars_first_last (p q : ascii -> bool) (s : string) :
  (forall c, q c = true -> p c = false) ->
  all_chars q s = true ->
  first_is p s = false /\ last_is p s = false.
Proof.
  intros Hpq. induction s as [|c s IH]; cbn; [auto|].
  intros H. apply andb_prop in H. destruct H as [Hc Hs].
  split; [auto|]. destruct s; [auto | now apply IH].
Qed.

Lemma lstrip_with_id (p : ascii -> bool) (s : string) :
  first_is p s = false -> lstrip_with p s = s.
Proof. destruct s as [|c s]; cbn; [auto|]. now intros ->. Qed.

Lemma rstrip_with_id (p : ascii -> bool) (s : string) :
  last_is p s = false -> rstrip_with p s = s.
Proof.
  induction s as [|c s IH]; [reflexivity|]. cbn [last_is rstrip_with].
  destruct s as [|d s].
  - cbn. now intros ->.
  - intros H. rewrite (IH H). reflexivity.
Qed.

Lemma digit_not_int_space (c : ascii) :
  is_digit c = true -> is_int_space c = false.
Proof.
  unfold is_digit, is_int_space. intros H.
  apply andb_prop in H. destruct H as [H1 H2].
  apply N.leb_le in H1, H2.
  repeat match goal with
    | |- context [(?a <=? ?b)%N] => destruct (N.leb_spec a b)
    | |- context [(?a =? ?b)%N] => destruct (N.eqb_spec a b)
    end; cbn; lia.
Qed.

Lemma to_uint_nonnil (p : positive) : Pos.to_uint p <> Decimal.Nil.
Proof.
  intros H. pose proof (DecimalPos.Unsigned.of_to p) as Hp. rewrite H in Hp. discriminate.
Qed.

Lemma int_of_str_unsigned (s : string) :
  all_chars is_digit s = true ->
  int_of_str s
  = match digits_value 0 false s with
    | Some z => Ok z
    | None => Raise ValueError
    end.
Proof.
  intros Hd.
  destruct (all_chars_first_last is_int_space is_digit s
              digit_not_int_space Hd) as [Hf Hl].
  unfold int_of_str. rewrite lstrip_with_id, rstrip_with_id by assumption.
  destruct s as [|c r]; [reflexivity|].
  cbn [all_chars] in Hd. apply andb_prop in Hd. destruct Hd as [Hc _].
  destruct c as [[] [] [] [] [] [] [] []]; try discriminate Hc; reflexivity.
Qed.

Lemma int_of_str_negative (s : string) :
  all_chars is_digit s = true -> s <> "" ->
  int_of_str (String "-" s)
  = match digits_value 0 false s with
    | Some z => Ok (- z)
    | None => Raise ValueError
    end.
Proof.
  intros Hd Hne.
  destruct (all_chars_first_last is_int_space is_digit s
              digit_not_int_space Hd) as [Hf Hl].
  unfold int_of_str. rewrite lstrip_with_id by reflexivity.
  rewrite rstrip_with_id by (destruct s; [congruence | exact Hl]).
  now destruct (digits_value 0 false s).
Qed.

Lemma string_of_uint_pos (p : positive) :
  NilZero.string_of_uint (Pos.to_uint p) = NilEmpty.string_of_uint (Pos.to_uint p)
  /\ NilEmpty.string_of_uint (Pos.to_uint p) <> ""
  /\ digits_value 0 false (NilEmpty.string_of_uint (Pos.to_uint p))
     = Some (Zpos p).
Proof.
  pose proof (to_uint_nonnil p) as Hnil.
  pose proof (DecimalPos.Unsigned.of_to p) as Hp.
  assert (Hv := digits_value_uint (Pos.to_uint p) false (or_introl Hnil)).
  rewrite Hp in Hv. unfold NilZero.string_of_uint.
  destruct (Pos.to_uint p); try congruence; repeat split; auto; discriminate.
Qed.

(** Writing an integer in decimal and reading it back gives the integer. *)
Lemma int_of_str_of_int (z : Z) : int_of_str (str_of_int z) = Ok z.
Proof.
  unfold str_of_int. destruct z as [|p|p]; [reflexivity | |];
    cbn [Z.to_int NilZero.string_of_int];
    destruct (string_of_uint_pos p) as (-> & Hne & Hv).
  - rewrite int_of_str_unsigned by apply all_digits_uint. now rewrite Hv.
  - rewrite int_of_str_negative by (apply all_digits_uint || exact Hne).
    now rewrite Hv.
Qed.

(** ** Device strings *)

Lemma split_without (c : ascii) (s : string) :
  has c s = false -> split c s = [s].
Proof.
  induction s as [|d s IH]; [reflexivity|]. cbn [has split].
  intros H. apply orb_false_elim in H. destruct H as [Hd Hs].
  now rewrite Hd, (IH Hs).
Qed.

Lemma split_at_first (c : ascii) (a b : string) :
  has c a = false -> split c (a ++ String c b) = a :: split c b.
Proof.
  induction a as [|d a IH]; cbn [has append split].
  - intros _. now rewrite Ascii.eqb_refl.
  - intros H. apply orb_false_elim in H. destruct H as [Hd Ha].
    now rewrite Hd, (IH Ha).
Qed.

Lemma split_first_field (c : ascii) (s : string) :
  exists (h : string) (t : list string), split c s = h :: t.
Proof.
  induction s as [|d s (h & t & IH)]; cbn [split]; [eauto|].
  destruct (Ascii.eqb d c); [eauto|]. rewrite IH. eauto.
Qed.

Lemma prefix_app (p s : string) :
  String.prefix p s = true -> exists t, s = p ++ t.
Proof.
  revert s. induction p as [|a p IH]; intros s H; [now exists s|].
  destruct s as [|b s]; [discriminate|]. cbn [String.prefix] in H.
  destruct (ascii_dec a b) as [<-|]; [|discriminate].
  destruct (IH s H) as (t & ->). now exists t.
Qed.

Lemma prefix_of_app (p t : string) : String.prefix p (p ++ t) = true.
Proof.
  induction p as [|a p IH]; cbn [append String.prefix]; [now destruct t|].
  destruct (ascii_dec a a); [exact IH | congruence].
Qed.

Lemma gpu_index_cuda (t : string) :
  exists (part : string) (rest : list string),
    split ":" t = part :: rest
    /\ gpu_index (VStr ("cuda:" ++ t)) = Some (int_of_str part).
Proof.
  destruct (split_first_field ":" t) as (part & rest & Hsplit).
  exists part, rest. split; [exact Hsplit|].
  cbn [gpu_index]. unfold startswith.
  rewrite prefix_of_app.
  change ("cuda:" ++ t) with ("cuda" ++ String ":" t).
  rewrite split_at_first by reflexivity. rewrite Hsplit. reflexivity.
Qed.

Lemma int_of_str_raises (s : string) (e : exn) :
  int_of_str s = Raise e -> e = ValueError.
Proof.
  unfold int_of_str.
  destruct (match rstrip_with is_int_space (lstrip_with is_int_space s) with
            | String "-" r => option_map Z.opp (digits_value 0 false r)
            | String "+" r => digits_value 0 false r
            | r => digits_value 0 false r
            end); congruence.
Qed.

Lemma has_colon_digits (s : string) :
  all_chars is_digit s = true -> has ":" s = false.
Proof.
  induction s as [|c s IH]; [reflexivity|]. cbn [all_chars has].
  intros H. apply andb_prop in H. destruct H as [Hc Hs].
  rewrite (IH Hs), orb_false_r.
  destruct c as [[] [] [] [] [] [] [] []]; try discriminate Hc; reflexivity.
Qed.

Lemma has_colon_str_of_int (z : Z) : has ":" (str_of_int z) = false.
Proof.
  unfold str_of_int. destruct z as [|p|p]; [reflexivity | |];
    cbn [Z.to_int NilZero.string_of_int];
    destruct (string_of_uint_pos p) as (-> & _ & _).
  - apply has_colon_digits, all_digits_uint.
  - cbn [has]. rewrite has_colon_digits by apply all_digits_uint. reflexivity.
Qed.

(** X1: the device string [cuda:N], with [N] written in decimal, designates
    the index [N]: with the runtime available, [check_fp16] answers
    whether the generation of that device is 7 or more, and prints
    nothing. *)
Theorem check_fp16_decimal_index :
  forall (rt : cuda) (n major : Z) (err : string),
    is_available rt = true ->
    get_device_properties rt n = Ok major ->
    gpu_index (VStr ("cuda:" ++ str_of_int n)) = Some (Ok n)
    /\ check_fp16 rt (VStr ("cuda:" ++ str_of_int n)) err
       = (Ok (7 <=? major), err).
Proof.
  intros rt n major err Hrt Hq.
  assert (Hidx : gpu_index (VStr ("cuda:" ++ str_of_int n)) = Some (Ok n)).
  { destruct (gpu_index_cuda (str_of_int n)) as (part & rest & Hsplit & ->).
    rewrite split_without in Hsplit by apply has_colon_str_of_int.
    injection Hsplit as <- _. now rewrite int_of_str_of_int. }
  split; [exact Hidx|]. now apply (check_fp16_generation rt _ n major).
Qed.

Lemma check_fp16_decimal_index_witness :
  check_fp16 (gpus [6; 8]) (VStr "cuda:1") "" = (Ok true, "").
Proof.
  exact (proj2 (check_fp16_decimal_index (gpus [6; 8]) 1 8 "" eq_refl eq_refl)).
Defined.

(** X2: only the text between the first and the second colon is read: what
    follows a second colon is ignored. *)
Theorem gpu_index_second_colon :
  forall a b : string,
    has ":" a = false ->
    gpu_index (VStr ("cuda:" ++ a ++ ":" ++ b)) = Some (int_of_str a)
    /\ gpu_index (VStr ("cuda:" ++ a)) = Some (int_of_str a).
Proof.
  intros a b Ha. split.
  - destruct (gpu_index_cuda (a ++ ":" ++ b)) as (part & rest & Hsplit & ->).
    change (a ++ ":" ++ b) with (a ++ String ":" b) in Hsplit.
    rewrite split_at_first in Hsplit by assumption. now injection Hsplit as <- _.
  - destruct (gpu_index_cuda a) as (part & rest & Hsplit & ->).
    rewrite split_without in Hsplit by assumption. now injection Hsplit as <- _.
Qed.

Lemma gpu_index_second_colon_witness :
  gpu_index (VStr "cuda:1:0") = Some (Ok 1).
Proof.
  exact (proj1 (gpu_index_second_colon "1" "0" eq_refl)).
Defined.

(** X3: the exceptions of [check_fp16]: a ValueError for a device string
    that starts with [cuda:] and whose index [int] cannot read, or
    whatever the runtime raises that is not an AssertionError. In both
    cases nothing has been printed. In particular the subscript [[1]]
    never fails. *)
Theorem check_fp16_exceptions :
  forall (rt : cuda) (device : value) (err out : string) (e : exn),
    check_fp16 rt device err = (Raise e, out) ->
    out = err
    /\ is_available rt = true
    /\ ((e = ValueError
         /\ exists t, device = VStr ("cuda:" ++ t)
                      /\ gpu_index device = Some (Raise ValueError))
        \/ (exists i, gpu_index device = Some (Ok i)
                      /\ get_device_properties rt i = Raise e
                      /\ forall msg, e <> AssertionError msg)).
Proof.
  intros rt device err out e. unfold check_fp16.
  destruct (is_available rt); cbn [negb]; [|discriminate].
  destruct (gpu_index device) as [[i|e']|] eqn:Hidx; [| |discriminate].
  - cbn. unfold query_device.
    destruct (get_device_properties rt i) as [major|e''] eqn:Hq; [discriminate|].
    destruct e''; cbn; try discriminate;
      intros H; injection H as <- <-; (split; [reflexivity|]); (split; [reflexivity|]);
      right; exists i; (split; [reflexivity|]); (split; [exact Hq|]);
      discriminate.
  - cbn. intros H. injection H as <- <-. split; [reflexivity|]. split; [reflexivity|].
    left. destruct device as [|b|z|f|s]; try discriminate Hidx.
    pose proof Hidx as Hidx0.
    cbn [gpu_index] in Hidx. destruct (startswith s "cuda:") eqn:Hp; [|discriminate].
    destruct (prefix_app _ _ Hp) as (t & ->).
    destruct (gpu_index_cuda t) as (part & rest & _ & Hg).
    rewrite Hg in Hidx0. injection Hidx0 as Hr.
    apply int_of_str_raises in Hr. subst e'.
    split; [reflexivity|]. exists t. split; [reflexivity|].
    reflexivity.
Qed.

Lemma check_fp16_exceptions_witness :
  "" = ""
  /\ is_available (gpus [8]) = true
  /\ ((ValueError = ValueError
       /\ exists t, VStr "cuda:" = VStr ("cuda:" ++ t)
                    /\ gpu_index (VStr "cuda:") = Some (Raise ValueError))
      \/ (exists i, gpu_index (VStr "cuda:") = Some (Ok i)
                    /\ get_device_properties (gpus [8]) i = Raise ValueError
                    /\ forall msg, ValueError <> AssertionError msg)).
Proof.
  exact (check_fp16_exceptions (gpus [8]) (VStr "cuda:") "" "" ValueError
           eq_refl).
Defined.

(** ** What one run prints, and when float16 is chosen *)

(** [check_fp16] only adds to the error stream, and what it adds and
    answers does not depend on what the stream holds. *)
Lemma check_fp16_appends (rt : cuda) (device : value) (err : string) :
  check_fp16 rt device err
  = (fst (check_fp16 rt device ""), err ++ snd (check_fp16 rt device "")).
Proof.
  unfold check_fp16. destruct (is_available rt); cbn [negb].
  - destruct (gpu_index device) as [[i|e]|].
    + cbn. unfold query_device.
      destruct (get_device_properties rt i) as [major|e].
      * cbn. now rewrite append_nil_r.
      * destruct e; cbn; now rewrite ?append_nil_r.
    + cbn. now rewrite append_nil_r.
    + reflexivity.
  - reflexivity.
Qed.

Lemma check_fp16_true (rt : cuda) (device : value) (err out : string) :
  check_fp16 rt device err = (Ok true, out) ->
  out = err
  /\ is_available rt = true
  /\ exists i major : Z,
       gpu_index device = Some (Ok i)
       /\ get_device_properties rt i = Ok major
       /\ 7 <= major.
Proof.
  unfold check_fp16. destruct (is_available rt); cbn [negb]; [|discriminate].
  destruct (gpu_index device) as [[i|e]|]; [| discriminate | discriminate].
  cbn. unfold query_device.
  destruct (get_device_properties rt i) as [major|e] eqn:Hq.
  - cbn. intros H. injection H as Hm <-. apply Z.leb_le in Hm.
    repeat split; auto. now exists i, major.
  - destruct e; cbn; discriminate.
Qed.

(** X4: whatever one evaluation of [check_fp16] prints, a run that asks for
    float16 prints twice, because [asr_cli] evaluates the expression
    twice; and a diagnostic comes only with the answer False. *)
Theorem diagnostics_printed_twice :
  forall (rt : cuda) (device : value) (err d : string) (b : bool),
    check_fp16 rt device "" = (Ok b, d) ->
    effective_precision rt "float16" device err
    = (Ok (if b then float16 else float32), err ++ d ++ d)
    /\ (b = true -> d = "").
Proof.
  intros rt device err d b H. split.
  - unfold effective_precision, torch_dtype. cbn [String.eqb Ascii.eqb Bool.eqb].
    cbn [bind io_monad ret].
    rewrite (check_fp16_appends rt device err), H. cbn [fst snd].
    rewrite (check_fp16_appends rt device (err ++ d)), H. cbn [fst snd].
    now rewrite append_assoc.
  - intros ->. now destruct (check_fp16_true rt device "" d H) as [-> _].
Qed.

Lemma diagnostics_printed_twice_witness :
  effective_precision (gpus [8]) "float16" (VStr "cpu") ""
  = (Ok float32,
     "" ++ ("Invalid device format. Use an integer or a string like 'cuda:0'."
            ++ nl)
        ++ ("Invalid device format. Use an integer or a string like 'cuda:0'."
            ++ nl)).
Proof.
  exact (proj1 (diagnostics_printed_twice (gpus [8]) (VStr "cpu") "" _ false
                  eq_refl)).
Defined.

(** X5: reduced precision is chosen only when it was asked for by the exact
    string [float16], the runtime is available, and the device
    designates an index whose generation is 7 or more; nothing is then
    printed. *)
Theorem float16_only_if :
  forall (rt : cuda) (dt : string) (device : value) (err out : string),
    effective_precision rt dt device err = (Ok float16, out) ->
    dt = "float16"
    /\ out = err
    /\ is_available rt = true
    /\ exists i major : Z,
         gpu_index device = Some (Ok i)
         /\ get_device_properties rt i = Ok major
         /\ 7 <= major.
Proof.
  intros rt dt device err out. unfold effective_precision, torch_dtype.
  destruct (String.eqb dt "float16") eqn:Hdt; [|discriminate].
  apply String.eqb_eq in Hdt. cbn [bind io_monad ret].
  rewrite (check_fp16_appends rt device err).
  destruct (check_fp16 rt device "") as [[b|e] d] eqn:Hcheck; cbn [fst snd];
    [|discriminate].
  rewrite (check_fp16_appends rt device (err ++ d)), Hcheck. cbn [fst snd].
  destruct b; [|discriminate]. intros H. injection H as <-.
  destruct (check_fp16_true rt device "" d Hcheck) as (-> & Hrt & Hdev).
  rewrite !append_nil_r. auto.
Qed.

Lemma float16_only_if_witness :
  "float16" = "float16"
  /\ "" = ""
  /\ is_available (gpus [6; 8]) = true
  /\ exists i major : Z,
       gpu_index (VStr "cuda:1") = Some (Ok i)
       /\ get_device_properties (gpus [6; 8]) i = Ok major
       /\ 7 <= major.
Proof.
  exact (float16_only_if (gpus [6; 8]) "float16" (VStr "cuda:1") "" ""
           eq_refl).
Defined.

(** ** The name of the subtitle file *)

Lemma has_app (c : ascii) (a b : string) : has c (a ++ b) = has c a || has c b.
Proof.
  induction a as [|d a IH]; cbn [append has]; [reflexivity|].
  now rewrite IH, orb_assoc.
Qed.

Lemma rfind_from_none (c : ascii) (s : string) :
  forall i : Z, has c s = false -> rfind_from c s i = -1.
Proof.
  induction s as [|d s IH]; intros i H; [reflexivity|]. cbn [has] in H.
  apply orb_false_elim in H. destruct H as [Hd Hs].
  cbn [rfind_from]. now rewrite (IH _ Hs), Hd.
Qed.

Lemma rfind_from_last (c : ascii) (a b : string) :
  forall i : Z,
    0 <= i -> has c b = false ->
    rfind_from c (a ++ String c b) i = i + Z.of_nat (String.length a).
Proof.
  induction a as [|d a IH]; intros i Hi Hb; cbn [append rfind_from String.length].
  - rewrite (rfind_from_none c b _ Hb). cbn. rewrite Ascii.eqb_refl. lia.
  - rewrite (IH (i + 1)) by (lia || assumption).
    destruct (Z.leb_spec 0 (i + 1 + Z.of_nat (String.length a))); lia.
Qed.

Lemma last_occurrence (c : ascii) (s : string) :
  has c s = true -> exists a b, s = a ++ String c b /\ has c b = false.
Proof.
  induction s as [|d s IH]; [discriminate|]. cbn [has].
  destruct (has c s) eqn:Hs.
  - intros _. destruct (IH eq_refl) as (a & b & -> & Hb).
    now exists (String d a), b.
  - rewrite orb_false_r. intros Hd. apply Ascii.eqb_eq in Hd. subst d.
    now exists "", s.
Qed.

Lemma take_drop (n : nat) (s : string) : take n s ++ drop n s = s.
Proof.
  revert s. induction n as [|n IH]; intros [|c s]; cbn; try reflexivity.
  now rewrite IH.
Qed.

Lemma take_app (a b : string) : take (String.length a) (a ++ b) = a.
Proof.
  induction a as [|c a IH]; cbn; [now destruct b | now rewrite IH].
Qed.

Lemma drop_app (a b : string) : drop (String.length a) (a ++ b) = b.
Proof.
  induction a as [|c a IH]; cbn; [now destruct b | exact IH].
Qed.

Lemma basename_without (p : string) : has "/" p = false -> basename p = p.
Proof.
  intros H. unfold basename, rfind. rewrite (rfind_from_none _ _ _ H).
  now destruct p.
Qed.

Lemma basename_last (d b : string) :
  has "/" b = false -> basename (d ++ "/" ++ b) = b.
Proof.
  intros H. unfold basename, rfind.
  change (d ++ "/" ++ b) with (d ++ String "/" b).
  rewrite rfind_from_last by (lia || assumption).
  replace (Z.to_nat (0 + Z.of_nat (String.length d) + 1))
    with (String.length (d ++ "/")).
  - change (d ++ String "/" b) with (d ++ ("/" ++ b)).
    rewrite <- append_assoc. apply drop_app.
  - clear. induction d as [|c d IH]; cbn [append String.length]; lia.
Qed.

Lemma basename_no_separator (p : string) : has "/" (basename p) = false.
Proof.
  destruct (has "/" p) eqn:Hp.
  - destruct (last_occurrence _ _ Hp) as (d & b & -> & Hb).
    change (d ++ String "/" b) with (d ++ "/" ++ b).
    now rewrite basename_last.
  - now rewrite basename_without.
Qed.

Lemma get_app (pre : string) (c : ascii) (r : string) :
  String.get (String.length pre) (pre ++ String c r) = Some c.
Proof. induction pre as [|d pre IH]; cbn; [reflexivity | exact IH]. Qed.

Lemma name_before_dot_spec (a : string) :
  forall pre rest : string,
    name_before_dot (pre ++ a ++ rest) (String.length pre) (String.length a)
    = negb (all_chars (fun c => Ascii.eqb c ".") a).
Proof.
  induction a as [|c a IH]; intros pre rest; [reflexivity|].
  cbn [String.length name_before_dot all_chars append].
  rewrite get_app. destruct (Ascii.eqb c "."); [|reflexivity].
  cbn [andb].
  replace (pre ++ String c (a ++ rest)) with ((pre ++ String c "") ++ a ++ rest)
    by (now rewrite append_assoc).
  replace (S (String.length pre)) with (String.length (pre ++ String c "")).
  - apply IH.
  - clear. induction pre as [|d pre IH]; cbn [append String.length]; lia.
Qed.

(** [splitext] on a name without separator: the extension is what
    follows the last dot, unless only dots come before it. *)
Lemma splitext_extension (a e : string) :
  has "/" a = false -> has "/" e = false -> has "." e = false ->
  splitext (a ++ "." ++ e)
  = if all_chars (fun c => Ascii.eqb c ".") a
    then (a ++ "." ++ e, "")
    else (a, "." ++ e).
Proof.
  intros Ha He Hdot. unfold splitext, rfind.
  rewrite (rfind_from_none "/") by (now rewrite has_app, Ha; cbn; rewrite He).
  change (a ++ "." ++ e) with (a ++ String "." e).
  rewrite rfind_from_last by (lia || assumption).
  replace (-1 <? 0 + Z.of_nat (String.length a)) with true by (symmetry; apply Z.ltb_lt; lia).
  cbn [andb].
  replace (Z.to_nat (-1 + 1)) with (String.length "") by reflexivity.
  replace (Z.to_nat (0 + Z.of_nat (String.length a) - (-1 + 1)))
    with (String.length a) by lia.
  change (a ++ String "." e) with ("" ++ a ++ String "." e) at 1.
  rewrite name_before_dot_spec.
  destruct (all_chars (fun c => Ascii.eqb c ".") a); [reflexivity|].
  cbn [negb]. replace (Z.to_nat (0 + Z.of_nat (String.length a)))
    with (String.length a) by lia.
  now rewrite take_app, drop_app.
Qed.

Lemma splitext_without (b : string) :
  has "/" b = false -> has "." b = false -> splitext b = (b, "").
Proof.
  intros Hs Hd. unfold splitext, rfind.
  now rewrite (rfind_from_none "/"), (rfind_from_none ".") by assumption.
Qed.

Lemma splitext_prefix (p : string) :
  exists rest, p = fst (splitext p) ++ rest.
Proof.
  unfold splitext.
  destruct (_ && _); cbn [fst].
  - eexists. symmetry. apply take_drop.
  - exists "". now rewrite append_nil_r.
Qed.

(** X6: the subtitle file is created in the working directory, whatever the
    directory of the audio file: its name holds no separator. It is a
    beginning of the last component of the audio path, followed by
    [.srt]. *)
Theorem srt_filename_in_working_directory :
  forall audio_file : string,
    has "/" (srt_filename audio_file) = false
    /\ exists stem rest : string,
         srt_filename audio_file = stem ++ ".srt"
         /\ basename audio_file = stem ++ rest.
Proof.
  intros p. unfold srt_filename.
  destruct (splitext_prefix (basename p)) as (rest & Hrest).
  pose proof (basename_no_separator p) as Hb.
  rewrite Hrest, has_app in Hb. apply orb_false_elim in Hb. destruct Hb as [Hs _].
  split.
  - now rewrite has_app, Hs.
  - now exists (fst (splitext (basename p))), rest.
Qed.

Lemma srt_filename_basename (d b : string) :
  has "/" b = false -> srt_filename (d ++ "/" ++ b) = srt_filename b.
Proof.
  intros Hb. unfold srt_filename.
  now rewrite basename_last, basename_without.
Qed.

(** X7: the name depends on the last component of the audio path only. *)
Theorem srt_filename_last_component :
  forall dir name : string,
    has "/" name = false ->
    srt_filename (dir ++ "/" ++ name) = srt_filename name.
Proof.
  intros d b Hb. unfold srt_filename.
  now rewrite basename_last, basename_without.
Qed.

Lemma srt_filename_last_component_witness :
  srt_filename ("recordings/2024" ++ "/" ++ "talk.mp3") = srt_filename "talk.mp3".
Proof.
  exact (srt_filename_last_component "recordings/2024" "talk.mp3" eq_refl).
Defined.

(** X8: the extension, what follows the last dot of the name, is replaced by
    [.srt], provided something other than dots comes before that dot.
    So two audio files with the same name up to the extension, in any
    directories, get the same subtitle file. *)
Theorem srt_filename_replaces_extension :
  forall dir stem ext : string,
    has "/" stem = false ->
    all_chars (fun c => Ascii.eqb c ".") stem = false ->
    has "/" ext = false ->
    has "." ext = false ->
    srt_filename (stem ++ "." ++ ext) = stem ++ ".srt"
    /\ srt_filename (dir ++ "/" ++ stem ++ "." ++ ext) = stem ++ ".srt".
Proof.
  intros d a e Ha Hdots He Hdot.
  assert (Hname : has "/" (a ++ "." ++ e) = false).
  { rewrite has_app, Ha. cbn. now rewrite He. }
  assert (H : srt_filename (a ++ "." ++ e) = a ++ ".srt").
  { unfold srt_filename. rewrite basename_without by assumption.
    rewrite splitext_extension by assumption. now rewrite Hdots. }
  split; [exact H|]. now rewrite srt_filename_basename.
Qed.

Lemma srt_filename_replaces_extension_witness :
  srt_filename ("a" ++ "/" ++ "talk.v2" ++ "." ++ "mp3") = "talk.v2" ++ ".srt".
Proof.
  exact (proj2 (srt_filename_replaces_extension "a" "talk.v2" "mp3"
                  eq_refl eq_refl eq_refl eq_refl)).
Defined.

(** X9: a name without extension keeps all of itself: a name with no dot,
    or whose only dots are leading ones, gets [.srt] appended. *)
Theorem srt_filename_without_extension :
  forall dots name : string,
    all_chars (fun c => Ascii.eqb c ".") dots = true ->
    has "/" name = false ->
    has "." name = false ->
    srt_filename (dots ++ name) = dots ++ name ++ ".srt".
Proof.
  intros dots e Hdots Hs Hd. unfold srt_filename.
  assert (Hsd : has "/" dots = false).
  { clear - Hdots. induction dots as [|c r IH]; [reflexivity|].
    cbn in Hdots |- *. apply andb_prop in Hdots. destruct Hdots as [Hc Hr].
    apply Ascii.eqb_eq in Hc. subst c. now rewrite (IH Hr). }
  assert (Hname : has "/" (dots ++ e) = false) by (now rewrite has_app, Hsd, Hs).
  rewrite basename_without by assumption.
  rewrite <- append_assoc. f_equal.
  (* split the dots at the last one, if there is one *)
  destruct (has "." dots) eqn:Hhas.
  - destruct (last_occurrence _ _ Hhas) as (a & b & Hab & Hb).
    assert (Hb' : b = "").
    { subst dots. clear - Hdots Hb. induction a as [|c a IH]; cbn in Hdots.
      - destruct b as [|c b]; [reflexivity|]. cbn in Hdots, Hb.
        apply andb_prop in Hdots. destruct Hdots as [Hc _].
        apply orb_false_elim in Hb. destruct Hb as [Hb _]. congruence.
      - apply andb_prop in Hdots. destruct Hdots as [_ Hr]. now apply IH. }
    subst b dots. rewrite append_assoc.
    change (String "." "" ++ e) with ("." ++ e).
    rewrite splitext_extension; try assumption.
    + assert (Ha : all_chars (fun c => Ascii.eqb c ".") a = true).
      { clear - Hdots. induction a as [|c a IH]; [reflexivity|].
        cbn in Hdots |- *. apply andb_prop in Hdots. destruct Hdots as [-> Hr].
        now rewrite (IH Hr). }
      now rewrite Ha.
    + rewrite has_app in Hsd. now apply orb_false_elim in Hsd.
  - apply (f_equal fst (splitext_without (dots ++ e) Hname
                          ltac:(now rewrite has_app, Hhas, Hd))).
Qed.

Lemma srt_filename_without_extension_witness :
  srt_filename ("." ++ "profile") = "." ++ "profile" ++ ".srt".
Proof.
  exact (srt_filename_without_extension "." "profile" eq_refl eq_refl eq_refl).
Defined.

(** ** The loop, one chunk at a time *)

Lemma write_chunks_cons (prev : value) (index : Z) (c : chunk)
  (rest : list chunk) (file : string) :
  write_chunks prev index (c :: rest) file
  = match seconds_to_srt_time_format prev (fst (timestamp c)) with
    | Raise e => (Raise e, file)
    | Ok (prev1, start_time) =>
        match seconds_to_srt_time_format prev1 (snd (timestamp c)) with
        | Raise e => (Raise e, file)
        | Ok (prev2, end_time) =>
            write_chunks prev2 (index + 1) rest
              (file ++ block index start_time end_time c)
        end
    end.
Proof.
  cbn [write_chunks]. unfold bind at 1. cbn [io_monad]. unfold lift at 1.
  destruct (seconds_to_srt_time_format prev (fst (timestamp c)))
    as [[prev1 st]|e]; [|reflexivity].
  unfold bind at 1. cbn [io_monad]. unfold lift at 1.
  destruct (seconds_to_srt_time_format prev1 (snd (timestamp c)))
    as [[prev2 en]|e]; [|reflexivity].
  unfold bind, io_monad, write, block.
  f_equal. unfold nl. repeat (progress (rewrite ?append_assoc; cbn)).
  reflexivity.
Qed.

Lemma seconds_to_srt_time_format_prev (prev seconds prev' : value)
  (formatted : string) :
  seconds_to_srt_time_format prev seconds = Ok (prev', formatted) ->
  prev' = fst (carry prev seconds)
  /\ srt_time_format prev' = Ok formatted
  /\ (is_number seconds = true -> prev' = seconds).
Proof.
  unfold seconds_to_srt_time_format, carry.
  destruct (is_number seconds); cbn [negb fst];
    destruct (srt_time_format _) eqn:H; cbn; intros [= <- <-]; auto.
  repeat split; auto. discriminate.
Qed.

Lemma seconds_to_srt_time_format_raise (prev seconds : value) (e : exn) :
  seconds_to_srt_time_format prev seconds = Raise e ->
  srt_time_format (fst (carry prev seconds)) = Raise e.
Proof.
  unfold seconds_to_srt_time_format, carry.
  destruct (is_number seconds); cbn [negb fst];
    destruct (srt_time_format _) eqn:H; cbn; congruence.
Qed.

(** X10: the loop can be cut anywhere: writing the chunks [l1 ++ l2] is
    writing [l1], then writing [l2] after it into the same file, with
    the accumulator that [l1] left and the numbering continued. When
    [l1] fails, nothing of [l2] is looked at. *)
Theorem write_chunks_app :
  forall (l1 l2 : list chunk) (prev : value) (index : Z) (file : string),
    write_chunks prev index (l1 ++ l2) file
    = match write_chunks prev index l1 file with
      | (Ok _, out) =>
          write_chunks (last_known prev (fields l1))
            (index + Z.of_nat (List.length l1)) l2 out
      | (Raise e, out) => (Raise e, out)
      end.
Proof.
  intros l1. induction l1 as [|c l1 IH]; intros l2 prev index file.
  - cbn. now rewrite Z.add_0_r.
  - rewrite <- app_comm_cons, !write_chunks_cons.
    destruct (seconds_to_srt_time_format prev (fst (timestamp c)))
      as [[prev1 st]|e] eqn:H1; [|reflexivity].
    destruct (seconds_to_srt_time_format prev1 (snd (timestamp c)))
      as [[prev2 en]|e] eqn:H2; [|reflexivity].
    rewrite IH.
    apply seconds_to_srt_time_format_prev in H1, H2.
    destruct H1 as (-> & _), H2 as (-> & _).
    cbn [fields flat_map app last_known fold_left List.length].
    replace (index + 1 + Z.of_nat (List.length l1))
      with (index + Z.of_nat (S (List.length l1))) by lia.
    reflexivity.
Qed.

(** ** What a failure leaves in the file *)

Lemma srt_time_format_raise (v : value) (e : exn) :
  is_number v = true ->
  srt_time_format v = Raise e ->
  (exists x : double, v = VFloat x) /\ (e = ValueError \/ e = OverflowError).
Proof.
  intros Hn H. destruct v as [|b|z|x|s]; try discriminate.
  - split; [now exists x|].
    unfold srt_time_format in H. cbn [as_num] in H.
    assert (Hto : forall (a : num) (e' : exn),
               to_int a = Raise e' -> e' = ValueError \/ e' = OverflowError).
    { intros [z|f] e'; cbn; [discriminate|].
      destruct f; cbn; intros [= <-]; auto. }
    assert (Hfi : forall (z : Z) (e' : exn),
               float_of_int z = Raise e' -> e' = OverflowError).
    { intros z e'. unfold float_of_int.
      destruct (double_of_dyadic z 0 false); congruence. }
    assert (Hdiv : forall (a : double) (W : Z),
               W = 3600 \/ W = 60 ->
               exists q, floordiv (NFloat a) (NInt W) = Ok (NFloat q)).
    { intros a W [->| ->]; cbn [floordiv].
      - change (float_of_int 3600) with (Ok (S754_finite false 7916483719987200 (-41))).
        cbn [bind result_monad]. unfold float_floor_div, float_divmod.
        cbn [SFeqb SFcompare fzero].
        destruct (if fnonzero (fmod a _) then _ else _) as [md dv].
        eexists. reflexivity.
      - change (float_of_int 60) with (Ok (S754_finite false 8444249301319680 (-47))).
        cbn [bind result_monad]. unfold float_floor_div, float_divmod.
        cbn [SFeqb SFcompare fzero].
        destruct (if fnonzero (fmod a _) then _ else _) as [md dv].
        eexists. reflexivity. }
    assert (Hmod : forall (a : double) (W : Z),
               W = 3600 \/ W = 60 ->
               exists r, modulo (NFloat a) (NInt W) = Ok (NFloat r)).
    { intros a W [->| ->]; cbn [modulo].
      - change (float_of_int 3600) with (Ok (S754_finite false 7916483719987200 (-41))).
        cbn [bind result_monad]. unfold float_rem. cbn [SFeqb SFcompare fzero].
        eexists. reflexivity.
      - change (float_of_int 60) with (Ok (S754_finite false 8444249301319680 (-47))).
        cbn [bind result_monad]. unfold float_rem. cbn [SFeqb SFcompare fzero].
        eexists. reflexivity. }
    destruct (Hdiv x 3600 ltac:(auto)) as (h & Hh). rewrite Hh in H. cbn [bind result_monad] in H.
    destruct (Hmod x 3600 ltac:(auto)) as (r & Hr). rewrite Hr in H. cbn [bind result_monad] in H.
    destruct (Hdiv r 60 ltac:(auto)) as (m & Hm). rewrite Hm in H. cbn [bind result_monad] in H.
    destruct (Hmod r 60 ltac:(auto)) as (r' & Hr'). rewrite Hr' in H. cbn [bind result_monad] in H.
    cbn [bind result_monad] in H.
    destruct (to_int (NFloat r')) as [whole|e1] eqn:Hw;
      [|injection H as <-; eapply Hto; eassumption].
    cbn [minus bind result_monad] in H.
    destruct (float_of_int whole) as [fw|e1] eqn:Hfw;
      [|injection H as <-; right; eapply Hfi; eassumption].
    cbn [times bind result_monad ret] in H.
    change (float_of_int 1000) with (Ok f1000) in H.
    cbn [bind result_monad ret] in H.
    destruct (to_int (NFloat (fmul (fsub r' fw) f1000))) as [ms|e1] eqn:Hms;
      [|injection H as <-; eapply Hto; eassumption].
    destruct (to_int (NFloat h)) as [hh|e1] eqn:Hhh;
      [|injection H as <-; eapply Hto; eassumption].
    destruct (to_int (NFloat m)) as [mm|e1] eqn:Hmm;
      [|injection H as <-; eapply Hto; eassumption].
    discriminate.
Qed.

Lemma write_chunks_failure (chunks : list chunk) :
  forall (prev : value) (index : Z) (file : string) (e : exn) (out : string),
    renders prev = true ->
    write_chunks prev index chunks file = (Raise e, out) ->
    exists (n : nat) (c : chunk) (x : double),
      nth_error chunks n = Some c
      /\ write_chunks prev index (firstn n chunks) file = (Ok tt, out)
      /\ (fst (timestamp c) = VFloat x \/ snd (timestamp c) = VFloat x)
      /\ srt_time_format (VFloat x) = Raise e
      /\ (e = ValueError \/ e = OverflowError).
Proof.
  assert (Hfield : forall (prev seconds : value) (e : exn),
             renders prev = true ->
             srt_time_format (fst (carry prev seconds)) = Raise e ->
             exists x : double,
               seconds = VFloat x /\ srt_time_format (VFloat x) = Raise e
               /\ (e = ValueError \/ e = OverflowError)).
  { intros prev seconds e Hp. unfold carry, renders in *.
    destruct (is_number seconds) eqn:Hn; cbn [negb fst]; intros H.
    - destruct (srt_time_format_raise seconds e Hn H) as [[x ->] He].
      now exists x.
    - rewrite H in Hp. discriminate. }
  induction chunks as [|c rest IH]; intros prev index file e out Hp H.
  - discriminate.
  - rewrite write_chunks_cons in H.
    destruct (seconds_to_srt_time_format prev (fst (timestamp c)))
      as [[prev1 st]|e1] eqn:H1.
    + apply seconds_to_srt_time_format_prev in H1 as H1'.
      destruct H1' as (_ & Hr1 & _).
      assert (Hp1 : renders prev1 = true) by (unfold renders; now rewrite Hr1).
      destruct (seconds_to_srt_time_format prev1 (snd (timestamp c)))
        as [[prev2 en]|e2] eqn:H2.
      * apply seconds_to_srt_time_format_prev in H2 as H2'.
        destruct H2' as (_ & Hr2 & _).
        assert (Hp2 : renders prev2 = true) by (unfold renders; now rewrite Hr2).
        destruct (IH _ _ _ _ _ Hp2 H) as (n & d & x & Hn & Hw & Hx & Hfx & He).
        exists (S n), d, x. repeat split; try assumption.
        cbn [firstn]. now rewrite write_chunks_cons, H1, H2.
      * injection H as <- <-.
        apply seconds_to_srt_time_format_raise in H2.
        destruct (Hfield _ _ _ Hp1 H2) as (x & Hx & Hfx & He).
        exists 0%nat, c, x. repeat split; auto.
    + injection H as <- <-.
      apply seconds_to_srt_time_format_raise in H1.
      destruct (Hfield _ _ _ Hp H1) as (x & Hx & Hfx & He).
      exists 0%nat, c, x. repeat split; auto.
Qed.



(** ** Whole numbers of seconds *)


(** ** Rounding never goes below a number of its own grid *)

Lemma binary_round_aux_lower (s : bool) (m e : Z) :
  0 < m ->
  exists m2 e2 : Z,
    0 <= m2
    /\ e <= e2 <= Z.max (Z.max (Z.log2 m + e - 51) (-1074)) e
    /\ (forall L : Z, L * 2 ^ (e2 - e) <= m -> L <= m2)
    /\ binary_round_aux prec emax s m e loc_Exact
       = match m2 with
         | Z0 => S754_zero s
         | Zpos p =>
             if e2 <=? emax - prec then S754_finite s p e2
             else S754_infinity s
         | Zneg _ => S754_nan
         end.
Proof.
  intros Hm. unfold binary_round_aux, shr_fexp.
  rewrite Zdigits2_log2, fexp_eq by lia.
  remember (Z.max (Z.log2 m + 1 + e - 53) (-1074) - e) as n1 eqn:Hn1.
  destruct (shr_spec (shr_record_of_loc m loc_Exact) e n1) as [Hm1 He1];
    [rewrite shr_m_record_of_loc; lia|].
  rewrite shr_m_record_of_loc in Hm1.
  destruct (shr (shr_record_of_loc m loc_Exact) e n1) as [mrs' e'].
  cbn [fst snd] in Hm1, He1.
  pose proof (round_nearest_even_bounds (shr_m mrs') (loc_of_shr_record mrs')) as Hr.
  remember (round_nearest_even (shr_m mrs') (loc_of_shr_record mrs')) as m1 eqn:Hm1def.
  assert (Hp1 : 0 < 2 ^ Z.max n1 0) by (apply pow2_pos; lia).
  assert (Hm'0 : 0 <= shr_m mrs').
  { rewrite Hm1. apply Z.div_pos; lia. }
  pose proof (Z.log2_nonneg m) as Hlm.
  assert (Hd1 : m1 = 0 \/ (0 < m1 /\ Z.log2 m1 + e' <= Z.max (Z.log2 m + e + 1) (-1074))).
  { destruct (Z.eq_dec m1 0) as [|Hne]; [left; assumption | right].
    split; [lia|].
    destruct (Z.eq_dec (shr_m mrs') 0) as [Hz|Hnz].
    - assert (m1 = 1) by lia. subst m1.
      replace (round_nearest_even (shr_m mrs') (loc_of_shr_record mrs')) with 1 by lia.
      cbn [Z.log2].
      assert (Hsh : Z.log2 m < Z.max n1 0).
      { destruct (Z.le_gt_cases (Z.max n1 0) (Z.log2 m)) as [Hle|]; [|lia].
        exfalso. assert (2 ^ Z.max n1 0 <= m).
        { apply Z.le_trans with (2 ^ Z.log2 m);
            [apply Z.pow_le_mono_r; lia | apply Z.log2_spec; lia]. }
        assert (0 < m / 2 ^ Z.max n1 0)
          by (apply Z.div_str_pos; split; lia).
        lia. }
      lia.
    - assert (Z.log2 m1 <= Z.log2 (shr_m mrs') + 1).
      { apply Z.le_trans with (Z.log2 (2 * shr_m mrs')).
        - apply Z.log2_le_mono. lia.
        - rewrite Z.log2_double by lia. lia. }
      destruct (log2_div_pow2 m (Z.max n1 0)) as [Hl|Hl]; try lia.
      rewrite <- Hm1 in Hl. lia. }
  cbn [shr_record_of_loc].
  remember (fexp prec emax (Zdigits2 m1 + e') - e') as n2 eqn:Hn2.
  destruct (shr_spec {| shr_m := m1; shr_r := false; shr_s := false |} e' n2)
    as [Hm2 He2]; [cbn [shr_m]; lia|].
  destruct (shr {| shr_m := m1; shr_r := false; shr_s := false |} e' n2)
    as [mrs'' e''].
  cbn [fst snd shr_m] in Hm2, He2.
  assert (Hp2 : 0 < 2 ^ Z.max n2 0) by (apply pow2_pos; lia).
  exists (shr_m mrs''), e''. repeat split.
  - rewrite Hm2. apply Z.div_pos; lia.
  - lia.
  - destruct Hd1 as [Hz|[Hpos Hlog1]].
    + subst n2. rewrite Hz in *. cbn [Zdigits2] in He2. rewrite fexp_eq in He2. lia.
    + subst n2. rewrite Zdigits2_log2, fexp_eq in He2 by lia. lia.
  - intros L HL.
    replace (e'' - e) with (Z.max n2 0 + Z.max n1 0) in HL by lia.
    rewrite Z.pow_add_r in HL by lia.
    rewrite Hm2. apply Z.div_le_lower_bound; [lia|].
    apply Z.le_trans with (shr_m mrs'); [|lia].
    rewrite Hm1. apply Z.div_le_lower_bound; [lia|]. lia.
Qed.

(** The milliseconds of a fraction of a second: the product with 1000.0
    is rounded before it is truncated, so the result is never below the
    exact count of whole milliseconds, and above the exact product by at
    most half a step of the rounding, which is below 2^-44. *)
Lemma fmul_fraction_accuracy (f : Z) :
  0 <= f < one_second -> representable f ->
  1000 * f < (truncate (fmul (canon f) f1000) + 1) * one_second
  /\ truncate (fmul (canon f) f1000) * one_second <= 1000 * f + 2 ^ 1030.
Proof.
  intros [Hf Hlt] Hr. destruct (Z.eq_dec f 0) as [->|Hne].
  { change (truncate (fmul (canon 0) f1000)) with 0. unfold one_second. lia. }
  destruct (canon_pos f ltac:(lia) Hr) as (mx & Hc & Hm). rewrite Hc.
  pose proof (grid_nonneg f) as Hg.
  assert (Hlf : Z.log2 f < 1074) by (apply Z.log2_lt_pow2; [lia | exact Hlt]).
  assert (Hlm : Z.log2 f = Z.log2 (Zpos mx) + grid f).
  { rewrite <- Hm at 1. rewrite Z.log2_mul_pow2 by lia. lia. }
  assert (Hgf : grid f <= 1021) by (unfold grid in *; lia).
  remember (grid f) as g eqn:Hgdef.
  remember (1117 - g) as t eqn:Ht.
  assert (HA : 0 < 2 ^ g) by (apply pow2_pos; lia).
  assert (HT : 0 < 2 ^ t) by (apply pow2_pos; lia).
  assert (HAT : 2 ^ t * 2 ^ g = one_second * 2 ^ 43).
  { unfold one_second. rewrite <- !Z.pow_add_r by lia. f_equal. lia. }
  unfold fmul, f1000, SFmul. cbn [xorb].
  remember (Zpos (mx * 8796093022208000)) as m eqn:Hmdef.
  assert (Hmval : m = Zpos mx * (1000 * 2 ^ 43)) by (subst m; apply Pos2Z.inj_mul).
  assert (Hmpos : 0 < m) by (subst m; lia).
  assert (HmA : m * 2 ^ g = 1000 * f * 2 ^ 43).
  { rewrite Hmval, <- Hm. ring. }
  replace (g - 1074 + -43) with (- t) by lia.
  (* the exact product is below 1000 *)
  assert (Hbelow : m < 1000 * 2 ^ t).
  { apply (Z.mul_lt_mono_pos_r (2 ^ g)); [exact HA|].
    replace (1000 * 2 ^ t * 2 ^ g) with (1000 * (one_second * 2 ^ 43))
      by (rewrite <- HAT; ring).
    rewrite HmA.
    assert (0 < 2 ^ 43) by (apply pow2_pos; lia). nia. }
  assert (Hlog : Z.log2 m < 10 + t).
  { apply Z.log2_lt_pow2; [lia|]. rewrite Z.pow_add_r by lia.
    change (2 ^ 10) with 1024. lia. }
  pose proof (Z.log2_nonneg m) as Hl0.
  destruct (binary_round_aux_lower false m (- t) Hmpos)
    as (m2 & e2 & Hm2 & [He He2] & Hlow & Hres).
  assert (He2neg : e2 < 0) by lia.
  assert (HE : 0 < 2 ^ (- e2)) by (apply pow2_pos; lia).
  assert (Hsplit : 2 ^ (- e2) * 2 ^ (e2 - - t) = 2 ^ t).
  { rewrite <- Z.pow_add_r by lia. f_equal. lia. }
  remember (1000 * f / one_second) as K eqn:HK.
  assert (Hone : 0 < one_second) by (unfold one_second; lia).
  assert (HK0 : 0 <= K) by (subst K; apply Z.div_pos; lia).
  assert (HKle : K * one_second <= 1000 * f).
  { subst K. rewrite Z.mul_comm. apply Z.mul_div_le. exact Hone. }
  assert (HKlt : 1000 * f < (K + 1) * one_second).
  { subst K. pose proof (Z.mod_pos_bound (1000 * f) one_second Hone).
    pose proof (Z.div_mod (1000 * f) one_second ltac:(lia)). lia. }
  assert (HKm : K * 2 ^ t <= m).
  { apply (Z.mul_le_mono_pos_r _ _ (2 ^ g)); [exact HA|].
    replace (K * 2 ^ t * 2 ^ g) with (K * (one_second * 2 ^ 43))
      by (rewrite <- HAT; ring).
    rewrite HmA.
    assert (0 < 2 ^ 43) by (apply pow2_pos; lia). nia. }
  assert (HKm2 : K * 2 ^ (- e2) <= m2).
  { apply Hlow. rewrite <- Z.mul_assoc, Hsplit. exact HKm. }
  rewrite Hres. destruct m2 as [|p|p]; [| |lia].
  - (* the product rounds to zero: the fraction is below a millisecond *)
    cbn [truncate]. assert (K = 0) by nia. lia.
  - replace (e2 <=? emax - prec) with true
      by (symmetry; apply Z.leb_le; change (emax - prec) with 971; lia).
    assert (Hfin : binary_round_aux prec emax false m (- t) loc_Exact
                   = S754_finite false p e2).
    { rewrite Hres.
      replace (e2 <=? emax - prec) with true
        by (symmetry; apply Z.leb_le; change (emax - prec) with 971; lia).
      reflexivity. }
    cbn [truncate cond_Zopp].
    replace (0 <=? e2) with false by (symmetry; apply Z.leb_gt; lia).
    remember (Zpos p / 2 ^ (- e2)) as ms eqn:Hms.
    assert (Hms1 : K <= ms).
    { subst ms. apply Z.div_le_lower_bound; [exact HE | lia]. }
    assert (Hms2 : ms * 2 ^ (- e2) <= Zpos p).
    { subst ms. rewrite Z.mul_comm. apply Z.mul_div_le. exact HE. }
    split; [nia|].
    destruct (binary_round_aux_upper false m (- t) p e2 Hmpos Hfin) as [_ Hup].
    cbn zeta in Hup. rewrite Zdigits2_log2, fexp_eq in Hup by lia.
    remember (Z.max (Z.max (Z.log2 m + 1 + - t - 53) (-1074) - - t) 0) as n eqn:Hn.
    assert (Hng : n + g <= 1074) by lia.
    assert (Hn0 : 0 <= n) by lia.
    assert (Hpn : 2 ^ n * 2 ^ g <= 2 ^ 1074).
    { rewrite <- Z.pow_add_r by lia. apply Z.pow_le_mono_r; lia. }
    assert (Hmst : 2 * (ms * 2 ^ t) <= 2 * m + 2 ^ n).
    { rewrite <- Hsplit. 
      assert (0 < 2 ^ (e2 - - t)) by (apply pow2_pos; lia). nia. }
    assert (Hfinal : 2 * (ms * one_second * 2 ^ 43)
                     <= 2 * (1000 * f * 2 ^ 43) + 2 ^ 1074).
    { rewrite <- HmA.
      replace (ms * one_second * 2 ^ 43) with (ms * 2 ^ t * 2 ^ g)
        by (rewrite <- !Z.mul_assoc, HAT; ring).
      nia. }
    change (2 ^ 1074) with (2 * 2 ^ 43 * 2 ^ 1030) in Hfinal.
    assert (0 < 2 ^ 43) by (apply pow2_pos; lia).
    nia.
Qed.

Lemma units_representable (x : double) :
  valid_binary prec emax x = true ->
  nonnegative x = true ->
  representable (units x) /\ 0 <= units x.
Proof.
  intros Hvalid Hnonneg. destruct x as [s|s| |s m e]; try discriminate.
  - split; [reflexivity | cbn; lia].
  - destruct s; [discriminate|].
    destruct (canon_units m e Hvalid) as (_ & Hr & Hpos & _ & _).
    split; [exact Hr | lia].
Qed.

(** ** How far a time code is from the time *)

(** X13: the time code of a double, read back in milliseconds, is never more
    than a millisecond behind the double and never ahead of it by more
    than 2^-44 of a millisecond: the whole seconds are exact, and the
    milliseconds are those of the fraction, truncated after the product
    with 1000.0 was rounded. *)
Theorem timecode_accuracy :
  forall x : double,
    valid_binary prec emax x = true ->
    nonnegative x = true ->
    units x < 2 ^ 53 * one_second ->
    exists hours minutes secs millis : Z,
      srt_time_format (VFloat x) = Ok (timecode hours minutes secs millis)
      /\ 0 <= hours
      /\ 0 <= minutes < 60
      /\ 0 <= secs < 60
      /\ 0 <= millis <= 999
      /\ (3600 * hours + 60 * minutes + secs) * one_second <= units x
      /\ units x < (3600 * hours + 60 * minutes + secs + 1) * one_second
      /\ 1000 * units x
         < (1000 * (3600 * hours + 60 * minutes + secs) + millis + 1)
           * one_second
      /\ (1000 * (3600 * hours + 60 * minutes + secs) + millis) * one_second
         <= 1000 * units x + 2 ^ 1030.
Proof.
  intros x Hvalid Hnonneg Hlt.
  destruct (srt_time_format_double x Hvalid Hnonneg Hlt) as [Hfmt Hms].
  cbn zeta in Hfmt, Hms.
  destruct (units_representable x Hvalid Hnonneg) as [Hr Hu].
  remember (units x) as u eqn:Hudef.
  remember (u mod (3600 * one_second)) as rem eqn:Hrem.
  remember (rem mod (60 * one_second)) as rem' eqn:Hrem'.
  remember (rem' mod one_second) as f eqn:Hf.
  assert (Hone : 0 < one_second) by reflexivity.
  assert (H3600 : 0 < 3600 * one_second) by lia.
  assert (H60 : 0 < 60 * one_second) by lia.
  destruct (representable_int 3600 ltac:(lia)) as [Hr3600 _].
  destruct (representable_int 60 ltac:(lia)) as [Hr60 _].
  destruct (representable_int 1 ltac:(lia)) as [Hr1 _].
  rewrite Z.mul_1_l in Hr1.
  pose proof (Z.mod_pos_bound u (3600 * one_second) H3600) as Hb1.
  rewrite <- Hrem in Hb1.
  pose proof (Z.mod_pos_bound rem (60 * one_second) H60) as Hb2.
  rewrite <- Hrem' in Hb2.
  pose proof (Z.mod_pos_bound rem' one_second Hone) as Hb3.
  rewrite <- Hf in Hb3.
  destruct (representable_mod u (3600 * one_second)) as [Hrrem _];
    try assumption.
  rewrite <- Hrem in Hrrem.
  destruct (representable_mod rem (60 * one_second)) as [Hrrem' _];
    try assumption; try lia.
  rewrite <- Hrem' in Hrrem'.
  destruct (representable_mod rem' one_second) as [Hrf _];
    try assumption; try lia.
  rewrite <- Hf in Hrf.
  destruct (fmul_fraction_accuracy f Hb3 Hrf) as [Hlow Hup].
  remember (truncate (fmul (canon f) f1000)) as ms eqn:Hmsdef.
  remember (u / (3600 * one_second)) as h eqn:Hh.
  remember (rem / (60 * one_second)) as mi eqn:Hmi.
  remember (rem' / one_second) as s eqn:Hs.
  pose proof (Z.div_mod u (3600 * one_second) ltac:(lia)) as E1.
  rewrite <- Hh, <- Hrem in E1.
  pose proof (Z.div_mod rem (60 * one_second) ltac:(lia)) as E2.
  rewrite <- Hmi, <- Hrem' in E2.
  pose proof (Z.div_mod rem' one_second ltac:(lia)) as E3.
  rewrite <- Hs, <- Hf in E3.
  assert (Hh0 : 0 <= h) by (subst h; apply Z.div_pos; lia).
  assert (Hmi0 : 0 <= mi < 60).
  { subst mi. split; [apply Z.div_pos; lia | apply Z.div_lt_upper_bound; lia]. }
  assert (Hs0 : 0 <= s < 60).
  { subst s. split; [apply Z.div_pos; lia | apply Z.div_lt_upper_bound; lia]. }
  assert (Hwhole : u = (3600 * h + 60 * mi + s) * one_second + f) by lia.
  exists h, mi, s, ms.
  split; [exact Hfmt|].
  repeat split; try lia.
Qed.

Lemma timecode_accuracy_witness :
  exists hours minutes secs millis : Z,
    srt_time_format (seconds 12 10) = Ok (timecode hours minutes secs millis)
    /\ 0 <= hours
    /\ 0 <= minutes < 60
    /\ 0 <= secs < 60
    /\ 0 <= millis <= 999
    /\ (3600 * hours + 60 * minutes + secs) * one_second
       <= units (float_of_decimal 12 10)
    /\ units (float_of_decimal 12 10)
       < (3600 * hours + 60 * minutes + secs + 1) * one_second
    /\ 1000 * units (float_of_decimal 12 10)
       < (1000 * (3600 * hours + 60 * minutes + secs) + millis + 1)
         * one_second
    /\ (1000 * (3600 * hours + 60 * minutes + secs) + millis) * one_second
       <= 1000 * units (float_of_decimal 12 10) + 2 ^ 1030.
Proof.
  apply (timecode_accuracy (float_of_decimal 12 10));
    vm_compute; reflexivity.
Defined.

(** ** The canonical form of the time codes *)

Lemma span_digits_app (d r : string) :
  all_chars is_digit d = true ->
  first_is is_digit r = false ->
  span_digits (d ++ r) = (d, r).
Proof.
  intros Hd Hr. induction d as [|c d IH]; cbn [append span_digits].
  - destruct r as [|c r]; [reflexivity|]. cbn in Hr |- *. now rewrite Hr.
  - cbn [all_chars] in Hd. apply andb_prop in Hd. destruct Hd as [Hc Hd].
    now rewrite Hc, (IH Hd).
Qed.

Lemma all_chars_app (p : ascii -> bool) (a b : string) :
  all_chars p (a ++ b) = all_chars p a && all_chars p b.
Proof.
  induction a as [|c a IH]; cbn [append all_chars]; [reflexivity|].
  now rewrite IH, andb_assoc.
Qed.

Lemma string_length_app (a b : string) :
  String.length (a ++ b) = (String.length a + String.length b)%nat.
Proof. induction a as [|c a IH]; cbn; [reflexivity | now rewrite IH]. Qed.

Lemma zeros_spec (n : nat) :
  all_chars is_digit (zeros n) = true /\ String.length (zeros n) = n.
Proof. induction n as [|n [IH1 IH2]]; cbn; auto. Qed.

Lemma str_of_int_digits (z : Z) :
  0 <= z -> all_chars is_digit (str_of_int z) = true.
Proof.
  intros Hz. unfold str_of_int. destruct z as [|p|p]; [reflexivity | | lia].
  cbn [Z.to_int NilZero.string_of_int].
  destruct (string_of_uint_pos p) as (-> & _ & _). apply all_digits_uint.
Qed.

(** The hours: all digits, and two of them or more. *)
Lemma format_d_hours (z : Z) :
  0 <= z ->
  all_chars is_digit (format_d 2 z) = true
  /\ (2 <= String.length (format_d 2 z))%nat.
Proof.
  intros Hz. unfold format_d.
  replace (z <? 0) with false by (symmetry; apply Z.ltb_ge; exact Hz).
  destruct (zeros_spec (2 - String.length (str_of_int z))) as [Hd Hl].
  rewrite all_chars_app, string_length_app, Hd, Hl, str_of_int_digits by exact Hz.
  split; [reflexivity | lia].
Qed.

Lemma format_d_below_60 (z : Z) :
  0 <= z < 60 ->
  exists a b : ascii,
    format_d 2 z = String a (String b "")
    /\ is_digit_below_6 a = true /\ is_digit b = true.
Proof.
  intros Hz.
  assert (Hall : forallb (fun k => match format_d 2 k with
                                   | String a (String b EmptyString) =>
                                       is_digit_below_6 a && is_digit b
                                   | _ => false
                                   end) (below 60) = true)
    by (vm_compute; reflexivity).
  rewrite forallb_forall in Hall.
  specialize (Hall z (below_spec 60 z ltac:(lia))).
  destruct (format_d 2 z) as [|a [|b [|c r]]]; try discriminate.
  apply andb_prop in Hall. destruct Hall as [Ha Hb]. now exists a, b.
Qed.

Lemma format_d_below_1000 (z : Z) :
  0 <= z < 1000 ->
  exists a b c : ascii,
    format_d 3 z = String a (String b (String c ""))
    /\ is_digit a = true /\ is_digit b = true /\ is_digit c = true.
Proof.
  intros Hz.
  assert (Hall : forallb (fun k => match format_d 3 k with
                                   | String a (String b (String c EmptyString)) =>
                                       is_digit a && is_digit b && is_digit c
                                   | _ => false
                                   end) (below 1000) = true)
    by (vm_compute; reflexivity).
  rewrite forallb_forall in Hall.
  specialize (Hall z (below_spec 1000 z ltac:(lia))).
  destruct (format_d 3 z) as [|a [|b [|c [|d r]]]]; try discriminate.
  apply andb_prop in Hall. destruct Hall as [Hab Hc].
  apply andb_prop in Hab. destruct Hab as [Ha Hb]. now exists a, b, c.
Qed.

Lemma timecode_canonical (hours minutes secs millis : Z) :
  0 <= hours -> 0 <= minutes < 60 -> 0 <= secs < 60 -> 0 <= millis <= 999 ->
  is_timecode (timecode hours minutes secs millis) = true.
Proof.
  intros Hh Hm Hs Hms. unfold timecode, is_timecode.
  destruct (format_d_hours hours Hh) as [Hd Hl].
  destruct (format_d_below_60 minutes Hm) as (m1 & m2 & -> & Hm1 & Hm2).
  destruct (format_d_below_60 secs Hs) as (s1 & s2 & -> & Hs1 & Hs2).
  destruct (format_d_below_1000 millis ltac:(lia))
    as (f1 & f2 & f3 & -> & Hf1 & Hf2 & Hf3).
  rewrite span_digits_app by (assumption || reflexivity).
  cbn [append]. rewrite Hm1, Hm2, Hs1, Hs2, Hf1, Hf2, Hf3.
  apply Nat.leb_le in Hl. rewrite Hl. reflexivity.
Qed.

(** A number in range is rendered, and as a canonical time code. *)
Lemma in_range_timecode (v : value) :
  in_range v = true ->
  exists formatted : string,
    srt_time_format v = Ok formatted /\ is_timecode formatted = true.
Proof.
  assert (Hint : forall z : Z, 0 <= z ->
            exists formatted : string,
              srt_time_format (VInt z) = Ok formatted
              /\ is_timecode formatted = true).
  { intros z Hz. eexists. split; [apply srt_time_format_int|].
    pose proof (Z.mod_pos_bound z 3600 ltac:(lia)) as B1.
    pose proof (Z.mod_pos_bound (z mod 3600) 60 ltac:(lia)) as B2.
    apply timecode_canonical; try lia.
    - apply Z.div_pos; lia.
    - split; [apply Z.div_pos; lia | apply Z.div_lt_upper_bound; lia]. }
  destruct v as [|b|z|x|s]; cbn [in_range]; try discriminate; intros H.
  - apply (Hint (Z.b2z b)). destruct b; cbn; lia.
  - apply Hint. now apply Z.leb_le.
  - apply andb_prop in H. destruct H as [H Hlt].
    apply andb_prop in H. destruct H as [Hvalid Hnonneg].
    apply Z.ltb_lt in Hlt.
    destruct (srt_time_format_double x Hvalid Hnonneg Hlt) as [Hfmt Hms].
    cbn zeta in Hfmt, Hms. eexists. split; [exact Hfmt|].
    destruct (units_representable x Hvalid Hnonneg) as [_ Hu].
    assert (Hone : 0 < one_second) by reflexivity.
    pose proof (Z.mod_pos_bound (units x) (3600 * one_second) ltac:(lia)) as B1.
    pose proof (Z.mod_pos_bound (units x mod (3600 * one_second))
                  (60 * one_second) ltac:(lia)) as B2.
    apply timecode_canonical; try assumption.
    + apply Z.div_pos; lia.
    + split; [apply Z.div_pos; lia | apply Z.div_lt_upper_bound; lia].
    + split; [apply Z.div_pos; lia | apply Z.div_lt_upper_bound; lia].
Qed.

Lemma in_range_renders (v : value) : in_range v = true -> renders v = true.
Proof.
  intros H. destruct (in_range_timecode v H) as (f & Hf & _).
  unfold renders. now rewrite Hf.
Qed.

Lemma in_range_number (v : value) : in_range v = true -> is_number v = true.
Proof. now destruct v. Qed.

Lemma well_timed_convertible (fs : list value) :
  forallb well_timed fs = true -> forallb convertible fs = true.
Proof.
  induction fs as [|f fs IH]; [reflexivity|]. cbn [forallb].
  intros H. apply andb_prop in H. destruct H as [Hf Hfs].
  rewrite (IH Hfs), andb_true_r. unfold well_timed, convertible in *.
  destruct (is_number f); [|reflexivity]. cbn [negb orb] in *.
  now apply in_range_renders.
Qed.

(** The values handed to the conversion stay in range. *)
Lemma fed_values_in_range (fs : list value) :
  forall a : value,
    in_range a = true ->
    forallb well_timed fs = true ->
    forallb in_range (fed_values a fs) = true.
Proof.
  induction fs as [|f fs IH]; intros a Ha H; [reflexivity|].
  cbn [forallb] in H. apply andb_prop in H. destruct H as [Hf Hfs].
  cbn [fed_values forallb]. unfold well_timed in Hf.
  destruct (is_number f); cbn [negb orb] in Hf.
  - rewrite Hf. now apply IH.
  - rewrite Ha. now apply IH.
Qed.

Lemma ends_in_range (cues : list cue) :
  forall (i : nat) (q : cue),
    nth_error cues i = Some q ->
    forallb in_range (flat_map ends cues) = true ->
    in_range (cue_start q) = true /\ in_range (cue_end q) = true.
Proof.
  induction cues as [|p cues IH]; intros i q Hq H.
  - destruct i; discriminate.
  - cbn [flat_map ends app forallb] in H.
    apply andb_prop in H. destruct H as [Hs H].
    apply andb_prop in H. destruct H as [He H].
    destruct i as [|i]; cbn in Hq.
    + injection Hq as <-. auto.
    + eauto.
Qed.

(** The scenario of the specification, as the program writes it: the
    literal [1.2] is a double just below 1.2, and its milliseconds are
    199. *)
Example spec_scenario_file :
  write_srt spec_scenario
  = (Ok tt,
     "1" ++ nl ++ "00:00:00,000 --> 00:00:01,199" ++ nl ++ "hello" ++ nl ++ nl
     ++ "2" ++ nl ++ "00:00:01,199 --> 00:00:01,199" ++ nl ++ "world" ++ nl
     ++ nl).
Proof. vm_compute. reflexivity. Qed.



